(** * Buienradar radar-loop camera: a model of [camera.py]

    The development embeds [homeassistant/components/buienradar/camera.py]:
    the cache fields of [BuienradarCam], the refresh predicate
    [__needs_refresh], the request construction and response handling of
    [__retrieve_radar_image], and the coroutine [async_camera_image] run by a
    cooperative scheduler in the style of asyncio.

    Conventions.
    - Instants ([datetime]) are integer timestamps in seconds from the Unix
      epoch; [_delta] is an integer number of seconds, so
      [now + timedelta(seconds=delta)] is an addition on [Z] that raises
      [OverflowError] when the timedelta or the sum leaves the range Python
      gives them.
    - A coroutine runs without interruption from one suspension point to the
      next.  The suspension points of [async_camera_image] are
      [self._condition.wait()], [session.get(...)] and [res.read()].  Each
      run between two of them is one function below and one [step] of the
      system.  [asyncio.Lock.acquire] returns without suspending when the
      lock is free, and every such run that takes the lock of
      [self._condition] gives it back before it ends ([wait] releases it,
      the [async with] blocks release it on exit): see [lock_discipline].
      Leaving the [async with session.get(...)] block belongs to the run
      that leaves it.
    - The environment chooses the clock readings of [dt_util.utcnow()] and
      the outcome of each network operation. *)

From Stdlib Require Import ZArith String List Bool Lia.
From stdpp Require Import gmap strings list fin_maps pretty.

Open Scope Z_scope.

(** ** Python values and truthiness *)

Abbreviation bytes := (list Byte.byte).

(** [datetime] objects; every [datetime] is truthy. *)
Record datetime := Datetime { timestamp : Z }.

(** [datetime.min] (year 1) and [datetime.max] (year 9999) in seconds from
    the Unix epoch, and the largest number of days of a [timedelta]. *)
Definition datetime_min : Z := -62135596800.
Definition datetime_max : Z := 253402300799.
Definition timedelta_max_days : Z := 999999999.

(** [timedelta(seconds=secs)]; [None] is the [OverflowError] Python raises
    when the number of days, [secs // 86400], leaves the range of a
    timedelta. *)
Definition timedelta (secs : Z) : option Z :=
  if (- timedelta_max_days <=? secs / 86400)
     && (secs / 86400 <=? timedelta_max_days)
  then Some secs
  else None.

(** [dt + timedelta(seconds=secs)]; [None] is the [OverflowError] of the
    timedelta or of a sum outside [datetime.min .. datetime.max]. *)
Definition add_seconds (dt : datetime) (secs : Z) : option datetime :=
  td ← timedelta secs;
  let ts := timestamp dt + td in
  if (datetime_min <=? ts) && (ts <=? datetime_max)
  then Some (Datetime ts)
  else None.

(** [a > b] on [datetime] *)
Definition dt_gt (a b : datetime) : bool := timestamp b <? timestamp a.

(** The truth value Python gives an object in [if], [not] and [and]. *)
Class Truthy (A : Type) := truthy : A -> bool.

#[global] Instance truthy_int : Truthy Z := fun z => negb (z =? 0).
#[global] Instance truthy_str : Truthy string :=
  fun s => match s with EmptyString => false | String _ _ => true end.
#[global] Instance truthy_bytes : Truthy bytes :=
  fun b => match b with [] => false | _ :: _ => true end.
#[global] Instance truthy_datetime : Truthy datetime := fun _ => true.
(** [None] is falsy; any other value has the truth value of its type. *)
#[global] Instance truthy_optional {A} `{Truthy A} : Truthy (option A) :=
  fun o => match o with None => false | Some a => truthy a end.

(** ** The camera object *)

Record BuienradarCam := mkCam {
  _dimension : Z;
  _delta : Z;
  _country : string;
  _radar_timeframe : Z;
  _last_image : option bytes;
  _last_modified : option string;
  _loading : bool;
  _deadline : option datetime
}.

(** [BuienradarCam.__init__]; [DEFAULT_DIMENSION] comes from [const.py] and
    is a parameter here. The coordinates only feed [unique_id]. *)
Definition __init__ (DEFAULT_DIMENSION delta : Z) (country : string)
    (radarTimeframe : Z) : BuienradarCam :=
  {| _dimension := DEFAULT_DIMENSION;
     _delta := delta;
     _country := country;
     _radar_timeframe := radarTimeframe;
     _last_image := None;
     _last_modified := None;
     _loading := false;
     _deadline := None |}.

Definition set_last_image (v : option bytes) (self : BuienradarCam) :=
  mkCam (_dimension self) (_delta self) (_country self) (_radar_timeframe self)
        v (_last_modified self) (_loading self) (_deadline self).

Definition set_last_modified (v : option string) (self : BuienradarCam) :=
  mkCam (_dimension self) (_delta self) (_country self) (_radar_timeframe self)
        (_last_image self) v (_loading self) (_deadline self).

Definition set_loading (v : bool) (self : BuienradarCam) :=
  mkCam (_dimension self) (_delta self) (_country self) (_radar_timeframe self)
        (_last_image self) (_last_modified self) v (_deadline self).

Definition set_deadline (v : option datetime) (self : BuienradarCam) :=
  mkCam (_dimension self) (_delta self) (_country self) (_radar_timeframe self)
        (_last_image self) (_last_modified self) (_loading self) v.

(** [__needs_refresh]; [utcnow] is the reading of [dt_util.utcnow()]. *)
Definition __needs_refresh (self : BuienradarCam) (utcnow : datetime) : bool :=
  if negb (truthy (_delta self) && truthy (_deadline self)
           && truthy (_last_image self))
  then true
  else match _deadline self with
       | Some deadline => dt_gt utcnow deadline
       | None => true
       end.

(** ** [__retrieve_radar_image]: the request *)

(** Lines 128-130: the number of ten-minute periods. *)
Definition radarTimeframePeriods (radar_timeframe : Z) : Z :=
  let periods := radar_timeframe / 10 + 1 in
  if truthy (periods mod 10) then periods + 1 else periods.

(** Lines 132-135: the f-string. *)
Definition url (self : BuienradarCam) : string :=
  "https://image.buienradar.nl/2.0/image/animation/RadarMapRain"
  +:+ _country self
  +:+ "?width=" +:+ pretty (_dimension self)
  +:+ "&height=" +:+ pretty (_dimension self)
  +:+ "&renderBackground=True&renderBranding=False&renderText=True&History=0&forecast="
  +:+ pretty (radarTimeframePeriods (_radar_timeframe self)).

(** Lines 137-140: the conditional header. *)
Definition headers (self : BuienradarCam) : gmap string string :=
  match _last_modified self with
  | Some last_modified =>
      if truthy last_modified then {[ "If-Modified-Since" := last_modified ]}
      else ∅
  | None => ∅
  end.

Record Request := mkRequest {
  req_url : string;
  req_timeout : Z;
  req_headers : gmap string string
}.

(** The arguments of [session.get(url, timeout=5, headers=headers)]. *)
Definition request (self : BuienradarCam) : Request :=
  mkRequest (url self) 5 (headers self).

(** ** [__retrieve_radar_image]: the response *)

(** Exceptions.  A network operation can raise, by the class the [except]
    clause of line 157 tests: [asyncio.TimeoutError], [aiohttp.ClientError]
    (with its subclasses, among them the [ClientResponseError] of
    [raise_for_status]), or any other exception.  [OverflowError] is what
    the date arithmetic of line 201 raises. *)
Inductive exn := TimeoutError | ClientError | OtherException | OverflowError.

(** What the code reads from the response object once [session.get]
    resumes: [res.status] and [res.headers.get("Last-Modified")]. *)
Record Response := mkResponse {
  status : Z;
  last_modified_header : option string
}.

(** How [session.get(...)] resumes. *)
Inductive get_outcome :=
| GetRaise (e : exn)
| GetResponse (res : Response).

(** How [res.read()] resumes. *)
Inductive read_outcome :=
| ReadOk (body : bytes)
| ReadRaise (e : exn).

(** Where a run of [__retrieve_radar_image] ends: at a [return], at an
    exception that leaves the function, or suspended in [res.read()]. *)
Inductive retrieved :=
| Returns (was_updated : bool)
| Raises (e : exn)
| AwaitsRead.

(** Line 157: [except (asyncio.TimeoutError, aiohttp.ClientError)]. *)
Definition caught (e : exn) : bool :=
  match e with
  | TimeoutError | ClientError => true
  | OtherException | OverflowError => false
  end.

(** An exception raised inside the [try] of lines 142-159. *)
Definition raised_in_try (e : exn) : retrieved :=
  if caught e then Returns false else Raises e.

(** Lines 143-151, from the moment [session.get] resumes up to
    [await res.read()].  [res.raise_for_status()] raises
    [ClientResponseError] when [400 <= res.status]. *)
Definition on_response (o : get_outcome) (self : BuienradarCam)
    : BuienradarCam * retrieved :=
  match o with
  | GetRaise e => (self, raised_in_try e)
  | GetResponse res =>
      if 400 <=? status res then (self, raised_in_try ClientError)
      else if status res =? 304 then (self, Returns true)
      else
        let last_modified := last_modified_header res in
        ((if truthy last_modified then set_last_modified last_modified self
          else self),
         AwaitsRead)
  end.

(** Lines 153-159, from the moment [res.read()] resumes. *)
Definition on_body (o : read_outcome) (self : BuienradarCam)
    : BuienradarCam * retrieved :=
  match o with
  | ReadOk body => (set_last_image (Some body) self, Returns true)
  | ReadRaise e => (self, raised_in_try e)
  end.

(** ** [async_camera_image] under a cooperative scheduler *)

(** How a call of [async_camera_image] ends. *)
Inductive result :=
| Returned (image : option bytes)
| Raised (e : exn).

(** Where a call that has started is.  [CondWait notified] is a call
    inside [self._condition.wait()], before or after [notify_all] has
    resolved its future; [AwaitGet now] and [AwaitRead now] are the call that
    fetches, with its local [now]; [Done r] is a call that has ended. *)
Inductive pc :=
| CondWait (notified : bool)
| AwaitGet (now : datetime)
| AwaitRead (now : datetime)
| Done (r : result).

(** What a run of the coroutine does that others can observe. *)
Inductive event :=
| EvAcquire (i : nat)
| EvRelease (i : nat)
| EvRequest (i : nat) (r : Request)
| EvNotifyAll (i : nat)
| EvReturn (i : nat) (image : option bytes)
| EvRaise (i : nat) (e : exn).

(** The camera shared by all calls, the calls that have started by task
    number, and the events so far, oldest first. *)
Record sys := mkSys {
  cam : BuienradarCam;
  tasks : gmap nat pc;
  trace : list event
}.

(** [Condition.notify_all]: every future that waits is resolved. *)
Definition notify (p : pc) : pc :=
  match p with
  | CondWait _ => CondWait true
  | _ => p
  end.

Definition notify_all (ts : gmap nat pc) : gmap nat pc := notify <$> ts.

Definition ev_result (i : nat) (r : result) : event :=
  match r with
  | Returned image => EvReturn i image
  | Raised e => EvRaise i e
  end.

(** Lines 204-208, the [finally] block, then the call ends with [r]. *)
Definition finally_block (i : nat) (r : result) (s : sys) : sys :=
  mkSys (set_loading false (cam s))
        (<[i := Done r]> (notify_all (tasks s)))
        (trace s ++ [EvAcquire i; EvNotifyAll i; EvRelease i; ev_result i r]).

(** Lines 200-203 once [__retrieve_radar_image] has returned
    [was_updated]: the new deadline, unless line 201 raises, and how the
    [try] block ends. *)
Definition conclude (now : datetime) (was_updated : bool)
    (self : BuienradarCam) : BuienradarCam * result :=
  if was_updated then
    match add_seconds now (_delta self) with
    | Some deadline =>
        let self := set_deadline (Some deadline) self in
        (self, Returned (_last_image self))
    | None => (self, Raised OverflowError)
    end
  else (self, Returned (_last_image self)).

(** Lines 198-208 once [__retrieve_radar_image] has ended or suspended. *)
Definition after_retrieve (i : nat) (now : datetime)
    (r : BuienradarCam * retrieved) (s : sys) : sys :=
  let '(self, out) := r in
  match out with
  | Returns was_updated =>
      let '(self, res) := conclude now was_updated self in
      finally_block i res (mkSys self (tasks s) (trace s))
  | Raises e => finally_block i (Raised e) (mkSys self (tasks s) (trace s))
  | AwaitsRead => mkSys self (<[i := AwaitRead now]> (tasks s)) (trace s)
  end.

(** Lines 182-198 and 125-143: a call runs from its start to its first
    suspension point, or returns on the fast path.  [t_check] is the clock
    reading inside [__needs_refresh], [t_now] the one of line 197. *)
Definition start (i : nat) (t_check t_now : datetime) (s : sys) : sys :=
  let self := cam s in
  if negb (__needs_refresh self t_check) then
    mkSys self (<[i := Done (Returned (_last_image self))]> (tasks s))
          (trace s ++ [EvReturn i (_last_image self)])
  else if _loading self then
    mkSys self (<[i := CondWait false]> (tasks s))
          (trace s ++ [EvAcquire i; EvRelease i])
  else
    mkSys (set_loading true self) (<[i := AwaitGet t_now]> (tasks s))
          (trace s ++ [EvAcquire i; EvRelease i; EvRequest i (request self)]).

(** Lines 190-191: a notified waiter takes the lock again and returns. *)
Definition resume_wait (i : nat) (s : sys) : sys :=
  mkSys (cam s) (<[i := Done (Returned (_last_image (cam s)))]> (tasks s))
        (trace s ++ [EvAcquire i; EvRelease i; EvReturn i (_last_image (cam s))]).

(** What the scheduler or the network does next. *)
Inductive action :=
| Run (i : nat) (t_check t_now : datetime)
| GetDone (i : nat) (o : get_outcome)
| ReadDone (i : nat) (o : read_outcome)
| Wake (i : nat).

(** One run of one call between two suspension points; [None] when the
    call is not suspended where the action needs it. *)
Definition step (a : action) (s : sys) : option sys :=
  match a with
  | Run i t_check t_now =>
      match tasks s !! i with
      | None => Some (start i t_check t_now s)
      | Some _ => None
      end
  | GetDone i o =>
      match tasks s !! i with
      | Some (AwaitGet now) => Some (after_retrieve i now (on_response o (cam s)) s)
      | _ => None
      end
  | ReadDone i o =>
      match tasks s !! i with
      | Some (AwaitRead now) => Some (after_retrieve i now (on_body o (cam s)) s)
      | _ => None
      end
  | Wake i =>
      match tasks s !! i with
      | Some (CondWait true) => Some (resume_wait i s)
      | _ => None
      end
  end.

Fixpoint run (acts : list action) (s : sys) : option sys :=
  match acts with
  | [] => Some s
  | a :: acts => match step a s with
                 | Some s' => run acts s'
                 | None => None
                 end
  end.

(** A camera nobody has called yet. *)
Definition idle (self : BuienradarCam) : sys := mkSys self ∅ [].

(** The states a newly constructed camera can get into. *)
Definition reachable (s : sys) : Prop :=
  exists dimension delta country timeframe acts,
    run acts (idle (__init__ dimension delta country timeframe)) = Some s.

(** A call that runs alone from its start until it ends or waits on the
    condition; the network answers [session.get] with [fst net] and
    [res.read] with [snd net]. *)
Definition call_alone (i : nat) (t_check t_now : datetime)
    (net : get_outcome * read_outcome) (s : sys) : option sys :=
  s1 ← step (Run i t_check t_now) s;
  s2 ← match tasks s1 !! i with
       | Some (AwaitGet _) => step (GetDone i net.1) s1
       | _ => Some s1
       end;
  match tasks s2 !! i with
  | Some (AwaitRead _) => step (ReadDone i net.2) s2
  | _ => Some s2
  end.

(** ** Observations on states and traces *)

(** The call is the one that fetches. *)
Definition fetching (p : pc) : bool :=
  match p with
  | AwaitGet _ | AwaitRead _ => true
  | _ => false
  end.

Definition is_request (e : event) : option Request :=
  match e with
  | EvRequest _ r => Some r
  | _ => None
  end.

(** The network requests issued so far, oldest first. *)
Definition requests_of (tr : list event) : list Request := omap is_request tr.

Definition is_settle (e : event) : bool :=
  match e with
  | EvNotifyAll _ => true
  | _ => false
  end.

(** A fetch has settled: its caller has reset the flag and notified. *)
Definition settled (tr : list event) : bool := existsb is_settle tr.

Definition is_end (e : event) : bool :=
  match e with
  | EvReturn _ _ | EvRaise _ _ => true
  | _ => false
  end.

(** No call ends before a fetch has settled; [seen] says whether one has
    settled before the first event of [tr]. *)
Fixpoint ends_after_settle (seen : bool) (tr : list event) : bool :=
  match tr with
  | [] => true
  | e :: tr =>
      (if is_end e then seen else true)
      && ends_after_settle (seen || is_settle e) tr
  end.

(** The holder of the lock of [self._condition] after the events of [tr],
    or [None] when the events break the rules of asyncio: [acquire] on a
    free lock only (a held one would suspend the caller), [release] and
    [notify_all] by the holder only.  A request under the lock is counted as
    a violation too: the fetch is to run outside the lock. *)
Fixpoint lock_after (holder : option nat) (tr : list event)
    : option (option nat) :=
  match tr with
  | [] => Some holder
  | EvAcquire i :: tr =>
      match holder with
      | None => lock_after (Some i) tr
      | Some _ => None
      end
  | EvRelease i :: tr =>
      if decide (holder = Some i) then lock_after None tr else None
  | EvNotifyAll i :: tr =>
      if decide (holder = Some i) then lock_after holder tr else None
  | EvRequest _ _ :: tr =>
      match holder with
      | None => lock_after holder tr
      | Some _ => None
      end
  | _ :: tr => lock_after holder tr
  end.

(** Every call of the schedule starts while a refresh is due and before
    any fetch has settled. *)
Fixpoint calls_due_before_settle (acts : list action) (s : sys) : bool :=
  match acts with
  | [] => true
  | a :: acts =>
      match a with
      | Run _ t_check _ =>
          __needs_refresh (cam s) t_check && negb (settled (trace s))
      | _ => true
      end
      && match step a s with
         | Some s' => calls_due_before_settle acts s'
         | None => true
         end
  end.

(** The requests issued on the way from [s] to [s']. *)
Definition issued (s s' : sys) : list Request :=
  requests_of (drop (length (trace s)) (trace s')).

(** The value [__retrieve_radar_image] returns ([was_updated] in
    [async_camera_image]) when the network answers with [net]; [false] when
    an exception leaves the function instead. *)
Definition was_updated (net : get_outcome * read_outcome)
    (self : BuienradarCam) : bool :=
  let '(self, out) := on_response net.1 self in
  match out with
  | Returns b => b
  | Raises _ => false
  | AwaitsRead =>
      match (on_body net.2 self).2 with
      | Returns b => b
      | _ => false
      end
  end.

(** ** Invariants *)

(** The flag [_loading] and the calls: at most one call fetches, the flag
    is set exactly while one does, and calls wait on the condition only
    while the flag is set. *)
Definition flag_inv (s : sys) : Prop :=
  (forall i j p q,
      tasks s !! i = Some p -> tasks s !! j = Some q ->
      fetching p = true -> fetching q = true -> i = j)
  /\ (_loading (cam s) = true <->
      exists i p, tasks s !! i = Some p /\ fetching p = true)
  /\ (forall i, tasks s !! i = Some (CondWait false) ->
                _loading (cam s) = true).

(** The stored [Last-Modified] value is never the empty string. *)
Definition token_ok (self : BuienradarCam) : Prop :=
  _last_modified self <> Some EmptyString.

(** Calls that all start while a refresh is due and before the fetch
    settles: until the fetch settles one call fetches and the others wait;
    afterwards every call has ended or has been notified. *)
Definition single_flight_inv (s : sys) : Prop :=
  ends_after_settle false (trace s) = true
  /\ (settled (trace s) = false ->
      (forall i p, tasks s !! i = Some p ->
                   fetching p = true \/ p = CondWait false)
      /\ (_loading (cam s) = false ->
          tasks s = ∅ /\ requests_of (trace s) = [])
      /\ (_loading (cam s) = true ->
          length (requests_of (trace s)) = 1%nat))
  /\ (settled (trace s) = true ->
      _loading (cam s) = false
      /\ tasks s <> ∅
      /\ length (requests_of (trace s)) = 1%nat
      /\ forall i p, tasks s !! i = Some p ->
                     p = CondWait true \/ exists r, p = Done r).

(** The steps of the system as a relation, one rule for each place a call
    can be run from; [step_transition] shows it is the graph of [step]. *)
Inductive transition : action -> sys -> sys -> Prop :=
| transition_start i t_check t_now s :
    tasks s !! i = None ->
    transition (Run i t_check t_now) s (start i t_check t_now s)
| transition_response i o now s :
    tasks s !! i = Some (AwaitGet now) ->
    transition (GetDone i o) s
               (after_retrieve i now (on_response o (cam s)) s)
| transition_body i o now s :
    tasks s !! i = Some (AwaitRead now) ->
    transition (ReadDone i o) s (after_retrieve i now (on_body o (cam s)) s)
| transition_wake i s :
    tasks s !! i = Some (CondWait true) ->
    transition (Wake i) s (resume_wait i s).

(** ** Further observations *)

(** The number of fetches that have settled. *)
Fixpoint count_settles (tr : list event) : nat :=
  match tr with
  | [] => 0%nat
  | e :: tr => ((if is_settle e then 1 else 0) + count_settles tr)%nat
  end.

(** Every call that has returned has returned the image now cached. *)
Definition returned_current (s : sys) : Prop :=
  forall i image,
    tasks s !! i = Some (Done (Returned image)) ->
    image = _last_image (cam s).

(** The action belongs to a call that has already started. *)
Definition resumes (a : action) : bool :=
  match a with
  | Run _ _ _ => false
  | _ => true
  end.

(** ** [async_setup_entry] *)

(** The values a config entry stores under the keys the platform reads.
    The coordinates, which are floats and only feed [unique_id], are left
    out. *)
Inductive pyval :=
| PyNone
| PyInt (z : Z)
| PyStr (s : string).

(** [entry.data] and [entry.options] *)
Record ConfigEntry := mkEntry {
  data : gmap string pyval;
  options : gmap string pyval
}.

(** [d.get(key, default)] *)
Definition dict_get (d : gmap string pyval) (key : string) (dflt : pyval)
    : pyval :=
  default dflt (d !! key).

Section Setup.
(** The names imported from [const.py]. *)
Variables CONF_COUNTRY CONF_DELTA CONF_TIMEFRAME CONF_RADAR_TIMEFRAME : string.
Variables DEFAULT_COUNTRY DEFAULT_DELTA DEFAULT_RADAR_TIMEFRAME : pyval.
Variable DEFAULT_DIMENSION : Z.

(** Line 47 *)
Definition setup_country (entry : ConfigEntry) : pyval :=
  dict_get (options entry) CONF_COUNTRY
           (dict_get (data entry) CONF_COUNTRY DEFAULT_COUNTRY).

(** Line 49 *)
Definition setup_delta (entry : ConfigEntry) : pyval :=
  dict_get (options entry) CONF_DELTA
           (dict_get (data entry) CONF_DELTA DEFAULT_DELTA).

(** Lines 54-56 *)
Definition setup_radarTimeframe (entry : ConfigEntry) : pyval :=
  dict_get (options entry) CONF_TIMEFRAME
           (dict_get (data entry) CONF_RADAR_TIMEFRAME DEFAULT_RADAR_TIMEFRAME).

(** [BuienradarCam(latitude, longitude, delta, country, radarTimeframe)]
    for arguments of the annotated types; arguments of other types are
    outside the model ([None]). *)
Definition construct (delta country radarTimeframe : pyval)
    : option BuienradarCam :=
  match delta, country, radarTimeframe with
  | PyInt d, PyStr c, PyInt t => Some (__init__ DEFAULT_DIMENSION d c t)
  | _, _, _ => None
  end.

(** The list handed to [async_add_entities]. *)
Definition async_setup_entry (entry : ConfigEntry)
    : option (list BuienradarCam) :=
  self ← construct (setup_delta entry) (setup_country entry)
                   (setup_radarTimeframe entry);
  Some [self].
End Setup.

(** [v] is what the two nested [get] calls of lines 47-56 yield: the value
    of [options] under [key_o] if there is one, else the value of [data]
    under [key_d] if there is one, else [dflt]. *)
Definition resolved (o d : gmap string pyval) (key_o key_d : string)
    (dflt v : pyval) : Prop :=
  o !! key_o = Some v
  \/ (o !! key_o = None /\ d !! key_d = Some v)
  \/ (o !! key_o = None /\ d !! key_d = None /\ dflt = v).

(** The call waits on the condition and has been notified. *)
Definition is_notified (p : pc) : bool :=
  match p with
  | CondWait true => true
  | _ => false
  end.

(** * Properties *)

#[global] Arguments add_seconds : simpl never.

(** ** Date arithmetic *)

(** When [dt + timedelta(seconds=secs)] does not raise, it is the sum, and
    the sum is a datetime. *)
Lemma add_seconds_Some (dt d : datetime) (secs : Z) :
  add_seconds dt secs = Some d ->
  timestamp d = timestamp dt + secs
  /\ datetime_min <= timestamp d <= datetime_max.
Proof.
  unfold add_seconds, timedelta. intros H.
  destruct ((- timedelta_max_days <=? secs / 86400)
            && (secs / 86400 <=? timedelta_max_days)); [| discriminate].
  cbn in H.
  destruct (datetime_min <=? timestamp dt + secs) eqn:Hlo; [| discriminate].
  destruct (timestamp dt + secs <=? datetime_max) eqn:Hhi; [| discriminate].
  injection H as <-. cbn [timestamp].
  apply Z.leb_le in Hlo, Hhi. lia.
Qed.

(** ** The resource URL *)

Lemma append_assoc (a b c : string) : (a +:+ b) +:+ c = a +:+ b +:+ c.
Proof.
  induction a as [|ch a IH]; [reflexivity |].
  change (String ch ((a +:+ b) +:+ c) = String ch (a +:+ b +:+ c)).
  by rewrite IH.
Qed.

Lemma truthy_int_mod (p : Z) : truthy (p mod 10) = false <-> (10 | p).
Proof.
  unfold truthy, truthy_int. rewrite negb_false_iff, Z.eqb_eq.
  split; intros H.
  - by apply Z.mod_divide.
  - by apply Z.mod_divide in H.
Qed.

Lemma periods_spec (m : Z) :
  let p := m / 10 + 1 in
  ((10 | p) /\ radarTimeframePeriods m = p)
  \/ (~ (10 | p) /\ radarTimeframePeriods m = p + 1).
Proof.
  intros p. unfold radarTimeframePeriods. fold p. cbv zeta.
  destruct (truthy (p mod 10)) eqn:E.
  - right. split; [| reflexivity].
    intros Hd. apply truthy_int_mod in Hd. congruence.
  - left. split; [| reflexivity]. by apply truthy_int_mod.
Qed.

Lemma url_forecast (self : BuienradarCam) :
  exists base,
    req_url (request self)
    = base +:+ "&forecast="
      +:+ pretty (radarTimeframePeriods (_radar_timeframe self)).
Proof.
  exists ("https://image.buienradar.nl/2.0/image/animation/RadarMapRain"
          +:+ _country self
          +:+ "?width=" +:+ pretty (_dimension self)
          +:+ "&height=" +:+ pretty (_dimension self)
          +:+ "&renderBackground=True&renderBranding=False&renderText=True&History=0").
  unfold request, url. cbn [req_url].
  rewrite !append_assoc. reflexivity.
Qed.

(** C5 (forecast-period mapping): the request URL ends in [forecast=q],
    where for [m] requested minutes and [p = m // 10 + 1], [q] is [p] when
    ten divides [p] and [p + 1] otherwise. *)
Theorem forecast_period_mapping (self : BuienradarCam) :
  let m := _radar_timeframe self in
  let p := m / 10 + 1 in
  exists base q,
    req_url (request self) = base +:+ "&forecast=" +:+ pretty q
    /\ (((10 | p) /\ q = p) \/ (~ (10 | p) /\ q = p + 1)).
Proof.
  intros m p.
  destruct (url_forecast self) as [base Hb].
  exists base, (radarTimeframePeriods m). split; [exact Hb |].
  apply periods_spec.
Qed.

(** C6 as stated fails on its first example: ten requested minutes give
    three periods, not two. *)
Lemma period_count_ten_is_not_two : radarTimeframePeriods 10 <> 2.
Proof. vm_compute. discriminate. Qed.

(** C6 (period-count examples, amended): ten requested minutes give three
    periods (two, raised by one because [2 % 10] is not zero), and
    twenty-five give four (three, raised by one); the URL carries them. *)
Theorem period_count_examples :
  radarTimeframePeriods 10 = 3 /\ radarTimeframePeriods 25 = 4 /\
  forall dimension delta country,
    (exists base, req_url (request (__init__ dimension delta country 10))
                  = base +:+ "&forecast=3") /\
    (exists base, req_url (request (__init__ dimension delta country 25))
                  = base +:+ "&forecast=4").
Proof.
  split; [reflexivity | split; [reflexivity |]].
  intros dimension delta country. split.
  - destruct (url_forecast (__init__ dimension delta country 10)) as [b Hb].
    exists b. exact Hb.
  - destruct (url_forecast (__init__ dimension delta country 25)) as [b Hb].
    exists b. exact Hb.
Qed.

(** ** The refresh predicate *)

Lemma needs_refresh_true_iff (self : BuienradarCam) (utcnow : datetime) :
  __needs_refresh self utcnow = true <->
  _delta self = 0 \/ _deadline self = None \/ _last_image self = None
  \/ _last_image self = Some []
  \/ exists deadline, _deadline self = Some deadline
                      /\ timestamp deadline < timestamp utcnow.
Proof.
  unfold __needs_refresh, truthy, truthy_optional, truthy_int, truthy_bytes,
    truthy_datetime, dt_gt.
  destruct (Z.eqb_spec (_delta self) 0) as [Hd | Hd]; cbn [negb andb].
  { split; [by left | done]. }
  destruct (_deadline self) as [deadline |]; cbn [negb andb];
    [| split; [by right; left | done]].
  destruct (_last_image self) as [[| b image] |]; cbn [negb andb].
  - split; [by right; right; right; left | done].
  - unfold truthy, truthy_datetime, truthy_bytes. cbn [negb andb].
    rewrite Z.ltb_lt. split.
    + intros H. do 4 right. by exists deadline.
    + intros [?|[?|[?|[?|(d & Hd' & Hlt)]]]]; try done. by simplify_eq.
  - split; [by right; right; left | done].
Qed.

(** C7 as stated fails twice over: with a zero [_delta], or with an empty
    image cached, [__needs_refresh] is true although an image is cached, a
    deadline is set and the clock has not passed it. *)
Lemma refresh_predicate_counterexample :
  (let self := mkCam 700 0 "NL" 60 (Some [Byte.x47]) None false
                     (Some (Datetime 100)) in
   let utcnow := Datetime 50 in
   ~ (__needs_refresh self utcnow = true <->
      _last_image self = None \/ _deadline self = None
      \/ exists deadline, _deadline self = Some deadline
                          /\ timestamp deadline < timestamp utcnow))
  /\
  (let self := mkCam 700 600 "NL" 60 (Some []) None false
                     (Some (Datetime 100)) in
   let utcnow := Datetime 50 in
   ~ (__needs_refresh self utcnow = true <->
      _last_image self = None \/ _deadline self = None
      \/ exists deadline, _deadline self = Some deadline
                          /\ timestamp deadline < timestamp utcnow)).
Proof.
  split; cbv zeta; intros [H _];
    (destruct H as [H | [H | (d & Hd & Hlt)]];
     [reflexivity | discriminate H | discriminate H |]);
    cbn in Hd; simplify_eq; cbn in Hlt; lia.
Qed.

(** C7 (refresh predicate, amended): [__needs_refresh] is true exactly when
    [_delta] is zero, or no deadline is set, or no image or an empty image
    is cached, or the clock is past the deadline; when it is false the call
    returns the cached image at once, the camera untouched and the
    condition not acquired. *)
Theorem refresh_predicate (s : sys) (i : nat) (t_check t_now : datetime) :
  let self := cam s in
  (__needs_refresh self t_check = true <->
   _delta self = 0 \/ _deadline self = None \/ _last_image self = None
   \/ _last_image self = Some []
   \/ exists deadline, _deadline self = Some deadline
                       /\ timestamp deadline < timestamp t_check)
  /\
  (__needs_refresh self t_check = false ->
   tasks s !! i = None ->
   step (Run i t_check t_now) s
   = Some (mkSys self (<[i := Done (Returned (_last_image self))]> (tasks s))
                 (trace s ++ [EvReturn i (_last_image self)]))).
Proof.
  intros self. split; [apply needs_refresh_true_iff |].
  intros Hfresh Hnew. unfold step, start. fold self.
  by rewrite Hnew, Hfresh.
Qed.

Lemma refresh_predicate_witness :
  let s := idle (mkCam 700 600 "NL" 60 (Some [Byte.x47]) None false
                       (Some (Datetime 100))) in
  step (Run 0 (Datetime 50) (Datetime 50)) s
  = Some (mkSys (cam s) {[ 0%nat := Done (Returned (Some [Byte.x47])) ]}
                [EvReturn 0 (Some [Byte.x47])]).
Proof.
  intros s.
  exact (proj2 (refresh_predicate s 0 (Datetime 50) (Datetime 50))
               eq_refl eq_refl).
Defined.

(** ** An empty body *)

(** C10 (empty body): a call whose fetch is answered 200 with an empty body
    stores the empty byte string (and sets the deadline, unless line 201
    raises [OverflowError], which leaves the deadline as it was); with the
    empty byte string cached [__needs_refresh] is true whatever the clock
    and the deadline; and a call that then starts while no fetch is in
    flight issues a request. *)
Theorem empty_body_refetches :
  (forall s i t_check t_now last_modified,
      tasks s !! i = None ->
      _loading (cam s) = false ->
      __needs_refresh (cam s) t_check = true ->
      exists s',
        call_alone i t_check t_now
          (GetResponse (mkResponse 200 last_modified), ReadOk []) s = Some s'
        /\ _last_image (cam s') = Some []
        /\ _deadline (cam s')
           = match add_seconds t_now (_delta (cam s)) with
             | Some deadline => Some deadline
             | None => _deadline (cam s)
             end
        /\ _loading (cam s') = false)
  /\
  (forall self utcnow,
      _last_image self = Some [] -> __needs_refresh self utcnow = true)
  /\
  (forall s j t_check t_now,
      _last_image (cam s) = Some [] ->
      _loading (cam s) = false ->
      tasks s !! j = None ->
      exists s',
        step (Run j t_check t_now) s = Some s'
        /\ trace s'
           = trace s ++ [EvAcquire j; EvRelease j; EvRequest j (request (cam s))]
        /\ tasks s' !! j = Some (AwaitGet t_now)).
Proof.
  assert (Hempty : forall self utcnow,
             _last_image self = Some [] -> __needs_refresh self utcnow = true).
  { intros self utcnow H. apply needs_refresh_true_iff. tauto. }
  split; [| split; [exact Hempty |]].
  - intros s i t_check t_now lm Hnew Hload Hdue.
    unfold call_alone, step, start. rewrite Hnew, Hdue, Hload.
    simpl. rewrite lookup_insert_eq. simpl.
    rewrite lookup_insert_eq. simpl. unfold conclude.
    destruct (truthy lm); simpl;
      destruct (add_seconds t_now (_delta (cam s))); simpl;
      eexists; (split; [reflexivity |]); done.
  - intros s j t_check t_now Himg Hload Hnew.
    unfold step, start. rewrite Hnew, (Hempty _ _ Himg), Hload. simpl.
    eexists. split; [reflexivity |]. split; [reflexivity |].
    apply lookup_insert_eq.
Qed.

Lemma empty_body_refetches_witness :
  let s := idle (__init__ 700 600 "NL" 60) in
  exists s' s'',
    call_alone 0 (Datetime 0) (Datetime 0)
      (GetResponse (mkResponse 200 None), ReadOk []) s = Some s'
    /\ _last_image (cam s') = Some []
    /\ _deadline (cam s') = Some (Datetime 600)
    /\ __needs_refresh (cam s') (Datetime 1) = true
    /\ step (Run 1 (Datetime 1) (Datetime 1)) s' = Some s''
    /\ requests_of (trace s'') = [request (cam s); request (cam s')].
Proof.
  intros s.
  destruct empty_body_refetches as (Hfetch & Hdue & Hagain).
  destruct (Hfetch s 0%nat (Datetime 0) (Datetime 0) None
                   eq_refl eq_refl eq_refl)
    as (s' & Hcall & Himg & Hdl & Hload).
  assert (Hnew : tasks s' !! 1%nat = None).
  { vm_compute in Hcall. injection Hcall as <-. reflexivity. }
  destruct (Hagain s' 1%nat (Datetime 1) (Datetime 1) Himg Hload Hnew)
    as (s'' & Hstep & Htr & _).
  exists s', s''. repeat split; try assumption.
  - by apply Hdue.
  - rewrite Htr. vm_compute in Hcall. injection Hcall as <-. reflexivity.
Defined.

(** ** Calls, flag and waiters *)

Lemma fetching_notify (p : pc) : fetching (notify p) = fetching p.
Proof. by destruct p. Qed.

Lemma notify_not_waiting (p : pc) : notify p <> CondWait false.
Proof. by destruct p. Qed.

Lemma lookup_notify_all (ts : gmap nat pc) (j : nat) :
  notify_all ts !! j = notify <$> ts !! j.
Proof. unfold notify_all. apply lookup_fmap. Qed.

(** After the [finally] block of the only call that fetches, no call
    fetches and no call waits without being notified. *)
Lemma finally_block_tasks (i : nat) (r : result) (s : sys) (j : nat) (q : pc) :
  (forall k p, tasks s !! k = Some p -> fetching p = true -> k = i) ->
  tasks (finally_block i r s) !! j = Some q ->
  fetching q = false /\ q <> CondWait false.
Proof.
  intros Honly. unfold finally_block. cbn [tasks].
  rewrite lookup_insert. case_decide as Hij.
  - intros [= <-]. done.
  - rewrite lookup_notify_all.
    destruct (tasks s !! j) as [p |] eqn:Hp; [| done].
    intros [= <-]. split; [| apply notify_not_waiting].
    rewrite fetching_notify.
    destruct (fetching p) eqn:Hf; [| done].
    specialize (Honly _ _ Hp Hf). congruence.
Qed.

Lemma finally_block_flag_inv (i : nat) (r : result) (s : sys) :
  (forall k p, tasks s !! k = Some p -> fetching p = true -> k = i) ->
  flag_inv (finally_block i r s).
Proof.
  intros Honly.
  pose proof (finally_block_tasks i r s) as Hts.
  split; [| split].
  - intros j k p q Hj Hk Hp Hq.
    destruct (Hts _ _ Honly Hj) as [Hn _]. congruence.
  - split; [done |].
    intros (j & p & Hj & Hp).
    destruct (Hts _ _ Honly Hj) as [Hn _]. congruence.
  - intros j Hj. destruct (Hts _ _ Honly Hj) as [_ Hn]. done.
Qed.

Lemma step_transition (a : action) (s s' : sys) :
  step a s = Some s' <-> transition a s s'.
Proof.
  split.
  - intros Hstep. destruct a as [i t_check t_now | i o | i o | i];
      cbn [step] in Hstep;
      destruct (tasks s !! i) as [[[] | | |] |] eqn:Hi;
      try discriminate Hstep; injection Hstep as <-; by constructor.
  - intros [i t_check t_now s0 Hi | i o now s0 Hi | i o now s0 Hi | i s0 Hi];
      cbn [step]; by rewrite Hi.
Qed.

(** A call that ends, or starts to wait, changes nothing about who
    fetches. *)
Lemma insert_idle_flag_inv (s : sys) (i : nat) (p : pc) (tr : list event) :
  flag_inv s ->
  fetching p = false ->
  (forall q, tasks s !! i = Some q -> fetching q = false) ->
  (p = CondWait false -> _loading (cam s) = true) ->
  flag_inv (mkSys (cam s) (<[i := p]> (tasks s)) tr).
Proof.
  intros (Hu & Hl & Hw) Hp Hold Hwait. split; [| split]; cbn [tasks cam].
  - intros j k pj pk. rewrite !lookup_insert.
    repeat case_decide; intros; simplify_eq; try congruence. eauto.
  - rewrite Hl. split; intros (j & q & Hj & Hq).
    + exists j, q. split; [| done]. rewrite lookup_insert.
      case_decide; [| done]. subst j.
      specialize (Hold _ Hj). congruence.
    + rewrite lookup_insert in Hj. case_decide; simplify_eq; [congruence |].
      eauto.
  - intros j. rewrite lookup_insert. case_decide.
    + intros [= ->]. by apply Hwait.
    + apply Hw.
Qed.

Lemma on_response_loading (o : get_outcome) (self : BuienradarCam) :
  _loading (on_response o self).1 = _loading self.
Proof.
  unfold on_response. destruct o as [e | res]; [done |].
  repeat case_match; done.
Qed.

Lemma on_body_loading (o : read_outcome) (self : BuienradarCam) :
  _loading (on_body o self).1 = _loading self.
Proof. by destruct o. Qed.

Create HintDb cam.
#[local] Hint Resolve on_response_loading on_body_loading : cam.

(** Lines 200-203 write the deadline and nothing else. *)
Lemma conclude_fields (now : datetime) (was_updated : bool)
    (self : BuienradarCam) :
  let self' := (conclude now was_updated self).1 in
  _loading self' = _loading self
  /\ _last_image self' = _last_image self
  /\ _last_modified self' = _last_modified self
  /\ _dimension self' = _dimension self
  /\ _delta self' = _delta self
  /\ _country self' = _country self
  /\ _radar_timeframe self' = _radar_timeframe self.
Proof.
  unfold conclude. destruct was_updated; [| done].
  by destruct (add_seconds now (_delta self)).
Qed.

(** After its retrieval a call writes the flag and the deadline and
    nothing else. *)
Lemma after_retrieve_fields (i : nat) (now : datetime)
    (r : BuienradarCam * retrieved) (s : sys) :
  let self' := cam (after_retrieve i now r s) in
  _last_image self' = _last_image r.1
  /\ _last_modified self' = _last_modified r.1
  /\ _dimension self' = _dimension r.1
  /\ _delta self' = _delta r.1
  /\ _country self' = _country r.1
  /\ _radar_timeframe self' = _radar_timeframe r.1.
Proof.
  destruct r as [self [was_updated | e |]]; cbn [after_retrieve fst];
    [| done | done].
  pose proof (conclude_fields now was_updated self) as H.
  destruct (conclude now was_updated self) as [self' res]. cbn in *. tauto.
Qed.

(** The [try] block ends by returning the cached image, or with the
    [OverflowError] of line 201. *)
Lemma conclude_result (now : datetime) (was_updated : bool)
    (self : BuienradarCam) :
  (conclude now was_updated self).2 = Returned (_last_image self)
  \/ (conclude now was_updated self).2 = Raised OverflowError.
Proof.
  unfold conclude. destruct was_updated; [| by left].
  destruct (add_seconds now (_delta self)); [by left | by right].
Qed.

(** What follows from the invariant for the call [i] that fetches. *)
Section Fetcher.
Variables (s : sys) (i : nat) (p : pc).
Hypothesis Hflag : flag_inv s.
Hypothesis Hi : tasks s !! i = Some p.
Hypothesis Hp : fetching p = true.

Lemma only_fetcher k q :
  tasks s !! k = Some q -> fetching q = true -> k = i.
Proof. destruct Hflag as (Hu & _ & _). intros Hk Hq. by apply (Hu k i q p). Qed.

Lemma loading_of_fetcher : _loading (cam s) = true.
Proof. destruct Hflag as (_ & Hl & _). apply Hl. eauto. Qed.

(** The fetching call moves on to another suspension point of the
    fetch; the camera keeps its flag. *)
Lemma insert_fetcher_flag_inv (p' : pc) (self : BuienradarCam)
    (tr : list event) :
  fetching p' = true ->
  _loading self = _loading (cam s) ->
  flag_inv (mkSys self (<[i := p']> (tasks s)) tr).
Proof.
  intros Hp' Hload.
  pose proof only_fetcher as Honly. pose proof loading_of_fetcher as Hl.
  destruct Hflag as (_ & _ & Hw). split; [| split]; cbn [tasks cam].
  - intros j k pj pk. rewrite !lookup_insert.
    repeat case_decide; intros; simplify_eq; try done.
    + symmetry. eauto.
    + eauto.
    + transitivity i; [| symmetry]; eauto.
  - rewrite Hload, Hl. split; [| done]. intros _.
    exists i, p'. by rewrite lookup_insert_eq.
  - intros j. rewrite lookup_insert, Hload. case_decide.
    + intros [= ->]. done.
    + apply Hw.
Qed.

Lemma after_retrieve_flag_inv (now : datetime)
    (r : BuienradarCam * retrieved) :
  _loading r.1 = _loading (cam s) ->
  flag_inv (after_retrieve i now r s).
Proof.
  intros Hload. destruct r as [self out]. cbn [fst] in Hload.
  unfold after_retrieve. destruct out as [was_updated | e |].
  - destruct (conclude now was_updated self) as [self' res].
    apply finally_block_flag_inv, only_fetcher.
  - apply finally_block_flag_inv, only_fetcher.
  - by apply insert_fetcher_flag_inv.
Qed.
End Fetcher.

Lemma start_flag_inv (i : nat) (t_check t_now : datetime) (s : sys) :
  flag_inv s -> tasks s !! i = None -> flag_inv (start i t_check t_now s).
Proof.
  intros Hinv Hnew. unfold start.
  destruct (__needs_refresh (cam s) t_check); cbn [negb].
  2: { apply insert_idle_flag_inv; try done. intros q. by rewrite Hnew. }
  destruct (_loading (cam s)) eqn:Hload.
  { apply insert_idle_flag_inv; try done. intros q. by rewrite Hnew. }
  destruct Hinv as (Hu & Hl & Hw).
  assert (Hnone : forall j p, tasks s !! j = Some p -> fetching p = false).
  { intros j p Hj. destruct (fetching p) eqn:Hf; [| done].
    assert (_loading (cam s) = true) by (apply Hl; eauto). congruence. }
  assert (Honly : forall j p, <[i := AwaitGet t_now]> (tasks s) !! j = Some p ->
                              fetching p = true -> j = i).
  { intros j p. rewrite lookup_insert. case_decide; [done |].
    intros Hj Hp. specialize (Hnone _ _ Hj). congruence. }
  split; [| split]; cbn [tasks cam].
  - intros j k pj pk Hj Hk Hpj Hpk.
    rewrite (Honly _ _ Hj Hpj). symmetry. eauto.
  - split; [| done]. intros _. exists i, (AwaitGet t_now).
    by rewrite lookup_insert_eq.
  - done.
Qed.

Lemma step_flag_inv (a : action) (s s' : sys) :
  flag_inv s -> step a s = Some s' -> flag_inv s'.
Proof.
  intros Hinv Hstep. apply step_transition in Hstep.
  destruct Hstep as [i t_check t_now s Hi | i o now s Hi | i o now s Hi
                    | i s Hi].
  - by apply start_flag_inv.
  - eapply after_retrieve_flag_inv; eauto with cam.
  - eapply after_retrieve_flag_inv; eauto with cam.
  - unfold resume_wait. apply insert_idle_flag_inv; try done.
    intros q. rewrite Hi. by intros [= <-].
Qed.

Lemma idle_flag_inv (self : BuienradarCam) :
  _loading self = false -> flag_inv (idle self).
Proof.
  intros Hload. split; [| split]; cbn [idle tasks cam].
  - intros i j p q Hi. by rewrite lookup_empty in Hi.
  - rewrite Hload. split; [done |]. intros (i & p & Hi & _).
    by rewrite lookup_empty in Hi.
  - intros i Hi. by rewrite lookup_empty in Hi.
Qed.

Lemma run_flag_inv (acts : list action) (s s' : sys) :
  flag_inv s -> run acts s = Some s' -> flag_inv s'.
Proof.
  revert s. induction acts as [| a acts IH]; intros s Hinv Hrun; cbn in Hrun.
  - by injection Hrun as <-.
  - destruct (step a s) as [s1 |] eqn:Hstep; [| discriminate].
    eauto using step_flag_inv.
Qed.

Lemma reachable_flag_inv (s : sys) : reachable s -> flag_inv s.
Proof.
  intros (dimension & delta & country & timeframe & acts & Hrun).
  eapply run_flag_inv; [| exact Hrun]. by apply idle_flag_inv.
Qed.

Lemma run_app (acts acts' : list action) (s : sys) :
  run (acts ++ acts') s = run acts s ≫= run acts'.
Proof.
  revert s. induction acts as [| a acts IH]; intros s; cbn; [done |].
  destruct (step a s); [apply IH | done].
Qed.

Lemma reachable_step (a : action) (s s' : sys) :
  reachable s -> step a s = Some s' -> reachable s'.
Proof.
  intros (dimension & delta & country & timeframe & acts & Hrun) Hstep.
  exists dimension, delta, country, timeframe, (acts ++ [a]).
  rewrite run_app, Hrun. cbn. by rewrite Hstep.
Qed.

Lemma start_tasks_other (k i : nat) (t_check t_now : datetime) (s : sys) :
  k <> i -> tasks (start k t_check t_now s) !! i = tasks s !! i.
Proof.
  intros Hne. unfold start. repeat case_match; cbn [tasks];
    by rewrite lookup_insert_ne.
Qed.

Lemma after_retrieve_ends (i : nat) (now : datetime)
    (r : BuienradarCam * retrieved) (s : sys) (res : result) :
  tasks (after_retrieve i now r s) !! i = Some (Done res) ->
  exists self,
    after_retrieve i now r s
    = finally_block i res (mkSys self (tasks s) (trace s)).
Proof.
  destruct r as [self [was_updated | e |]]; cbn [after_retrieve].
  - destruct (conclude now was_updated self) as [self' res'].
    unfold finally_block at 1. cbn [tasks]. rewrite lookup_insert_eq.
    intros [= <-]. eauto.
  - unfold finally_block at 1. cbn [tasks]. rewrite lookup_insert_eq.
    intros [= <-]. eauto.
  - cbn [tasks]. rewrite lookup_insert_eq. discriminate.
Qed.

(** The step that ends the fetching call is the [finally] block. *)
Lemma step_fetcher_ends (a : action) (s s' : sys) (i : nat) (p : pc)
    (r : result) :
  flag_inv s ->
  step a s = Some s' ->
  tasks s !! i = Some p -> fetching p = true ->
  tasks s' !! i = Some (Done r) ->
  exists self, s' = finally_block i r (mkSys self (tasks s) (trace s)).
Proof.
  intros Hinv Hstep Hi Hp Hend.
  pose proof (only_fetcher _ _ _ Hinv Hi Hp) as Honly.
  apply step_transition in Hstep.
  destruct Hstep as [k t_check t_now s Hk | k o now s Hk | k o now s Hk
                    | k s Hk].
  - assert (k <> i) by congruence.
    rewrite start_tasks_other in Hend by done.
    rewrite Hi in Hend. injection Hend as ->. discriminate.
  - assert (k = i) as -> by (by eapply Honly).
    by apply after_retrieve_ends.
  - assert (k = i) as -> by (by eapply Honly).
    by apply after_retrieve_ends.
  - assert (k <> i) by (intros ->; rewrite Hi in Hk; by simplify_eq).
    unfold resume_wait in Hend. cbn [tasks] in Hend.
    rewrite lookup_insert_ne in Hend by done.
    rewrite Hi in Hend. injection Hend as ->. discriminate.
Qed.

(** C9 (in-flight flag reset): in every state the camera can get into, the
    flag [_loading] is set exactly while a call fetches; that call can
    always go on, whatever the network answers or raises; and the step in
    which it ends, by return or by exception, takes the lock, resets the
    flag, notifies every waiter and releases the lock before the call
    ends. *)
Theorem in_flight_flag_reset (s : sys) :
  reachable s ->
  (_loading (cam s) = true <->
   exists i p, tasks s !! i = Some p /\ fetching p = true)
  /\ (forall i now o,
         tasks s !! i = Some (AwaitGet now) ->
         exists s', step (GetDone i o) s = Some s'
                    /\ (tasks s' !! i = Some (AwaitRead now)
                        \/ exists r, tasks s' !! i = Some (Done r)))
  /\ (forall i now o,
         tasks s !! i = Some (AwaitRead now) ->
         exists s' r, step (ReadDone i o) s = Some s'
                      /\ tasks s' !! i = Some (Done r))
  /\ (forall a s' i p r,
         step a s = Some s' ->
         tasks s !! i = Some p -> fetching p = true ->
         tasks s' !! i = Some (Done r) ->
         _loading (cam s') = false
         /\ (forall j, tasks s' !! j <> Some (CondWait false))
         /\ (forall j notified,
                tasks s !! j = Some (CondWait notified) ->
                tasks s' !! j = Some (CondWait true))
         /\ trace s'
            = trace s ++ [EvAcquire i; EvNotifyAll i; EvRelease i;
                          ev_result i r]).
Proof.
  intros Hreach. pose proof (reachable_flag_inv _ Hreach) as Hinv.
  split; [apply Hinv |]. split; [| split].
  - intros i now o Hi. cbn [step]. rewrite Hi. eexists. split; [done |].
    destruct (on_response o (cam s)) as [self [was_updated | e |]];
      cbn [after_retrieve];
      [destruct (conclude now was_updated self) as [self' res] | |];
      unfold finally_block; cbn [tasks];
      rewrite lookup_insert_eq; eauto.
  - intros i now o Hi. cbn [step]. rewrite Hi.
    destruct o as [body | e]; cbn [on_body]; unfold raised_in_try;
      [| destruct (caught e)]; cbn [after_retrieve];
      try (destruct (conclude now _ _) as [self' res]);
      unfold finally_block; cbn [tasks]; do 2 eexists;
      (split; [done |]); apply lookup_insert_eq.
  - intros a s' i p r Hstep Hi Hp Hend.
    destruct (step_fetcher_ends _ _ _ _ _ _ Hinv Hstep Hi Hp Hend)
      as [self ->].
    pose proof (only_fetcher _ _ _ Hinv Hi Hp) as Honly.
    split; [done |]. split; [| split; [| done]].
    + intros j Hj.
      by destruct (finally_block_tasks i r (mkSys self (tasks s) (trace s))
                     j _ Honly Hj).
    + intros j notified Hj. unfold finally_block. cbn [tasks].
      assert (j <> i) by (intros ->; rewrite Hi in Hj; by simplify_eq).
      rewrite lookup_insert_ne by done.
      by rewrite lookup_notify_all, Hj.
Qed.

Lemma in_flight_flag_reset_witness :
  exists s s',
    run [Run 0 (Datetime 0) (Datetime 0); Run 1 (Datetime 1) (Datetime 1)]
        (idle (__init__ 700 600 "NL" 60)) = Some s
    /\ step (GetDone 0 (GetRaise OtherException)) s = Some s'
    /\ _loading (cam s) = true
    /\ tasks s !! 1%nat = Some (CondWait false)
    /\ tasks s' !! 0%nat = Some (Done (Raised OtherException))
    /\ _loading (cam s') = false
    /\ tasks s' !! 1%nat = Some (CondWait true).
Proof.
  do 2 eexists. split; [reflexivity |]. split; [reflexivity |].
  split; [reflexivity |]. split; [reflexivity |]. split; [reflexivity |].
  match goal with
  | |- _loading (cam ?s') = false /\ _ =>
      match s' with
      | after_retrieve _ _ _ ?s =>
          assert (Hreach : reachable s)
            by (exists 700, 600, "NL"%string, 60,
                  [Run 0 (Datetime 0) (Datetime 0);
                   Run 1 (Datetime 1) (Datetime 1)]; reflexivity);
          destruct (in_flight_flag_reset s Hreach) as (_ & _ & _ & Hend);
          destruct (Hend (GetDone 0 (GetRaise OtherException)) s' 0%nat
                         (AwaitGet (Datetime 0)) (Raised OtherException)
                         eq_refl eq_refl eq_refl eq_refl)
            as (Hflag & _ & Hwake & _);
          split; [exact Hflag | exact (Hwake 1%nat false eq_refl)]
      end
  end.
Defined.

(** ** The freshness token *)

Lemma on_response_token_ok (o : get_outcome) (self : BuienradarCam) :
  token_ok self -> token_ok (on_response o self).1.
Proof.
  unfold on_response, token_ok. intros Hok.
  destruct o as [e | res]; [done |].
  destruct (400 <=? status res); [done |].
  destruct (status res =? 304); [done |].
  destruct (last_modified_header res) as [[| c lm] |]; done.
Qed.

Lemma on_body_token_ok (o : read_outcome) (self : BuienradarCam) :
  token_ok self -> token_ok (on_body o self).1.
Proof. by destruct o. Qed.

Lemma after_retrieve_token (i : nat) (now : datetime)
    (r : BuienradarCam * retrieved) (s : sys) :
  _last_modified (cam (after_retrieve i now r s)) = _last_modified r.1.
Proof.
  destruct r as [self [was_updated | e |]]; cbn [after_retrieve fst];
    [| done | done].
  pose proof (conclude_fields now was_updated self) as (_ & _ & Htok & _).
  by destruct (conclude now was_updated self).
Qed.

Lemma step_token_ok (a : action) (s s' : sys) :
  token_ok (cam s) -> step a s = Some s' -> token_ok (cam s').
Proof.
  intros Hok Hstep. apply step_transition in Hstep.
  destruct Hstep as [i t_check t_now s Hi | i o now s Hi | i o now s Hi
                    | i s Hi].
  - unfold start. by repeat case_match.
  - unfold token_ok. rewrite after_retrieve_token.
    by apply on_response_token_ok.
  - unfold token_ok. rewrite after_retrieve_token.
    by apply on_body_token_ok.
  - done.
Qed.

Lemma run_token_ok (acts : list action) (s s' : sys) :
  token_ok (cam s) -> run acts s = Some s' -> token_ok (cam s').
Proof.
  revert s. induction acts as [| a acts IH]; intros s Hok Hrun; cbn in Hrun.
  - by injection Hrun as <-.
  - destruct (step a s) as [s1 |] eqn:Hstep; [| discriminate].
    eauto using step_token_ok.
Qed.

Lemma reachable_token_ok (s : sys) : reachable s -> token_ok (cam s).
Proof.
  intros (dimension & delta & country & timeframe & acts & Hrun).
  by eapply run_token_ok; [| exact Hrun].
Qed.

Lemma headers_of_token (self : BuienradarCam) (token : string) :
  token_ok self -> _last_modified self = Some token ->
  headers self = {[ "If-Modified-Since" := token ]}.
Proof.
  unfold token_ok, headers. intros Hok Htok. rewrite Htok in *.
  destruct token; [done | reflexivity].
Qed.

(** ** Requests issued by a step *)

Lemma issued_app (s s' : sys) (es : list event) :
  trace s' = trace s ++ es -> issued s s' = requests_of es.
Proof. intros H. unfold issued. by rewrite H, drop_app_length. Qed.

Lemma after_retrieve_issued (i : nat) (now : datetime)
    (r : BuienradarCam * retrieved) (s : sys) :
  issued s (after_retrieve i now r s) = [].
Proof.
  destruct r as [self [was_updated | e |]]; cbn [after_retrieve].
  - destruct (conclude now was_updated self) as [self' [image | e]];
      (erewrite issued_app; [| reflexivity]); reflexivity.
  - erewrite issued_app; [| reflexivity]. reflexivity.
  - unfold issued. cbn [trace]. by rewrite drop_all.
Qed.

(** A step issues a request only when it starts a call while a refresh is
    due and no fetch is in flight, and then it is the request built from
    the camera as it is. *)
Lemma step_issued (a : action) (s s' : sys) :
  step a s = Some s' ->
  issued s s' = []
  \/ (exists i t_check t_now,
         a = Run i t_check t_now
         /\ __needs_refresh (cam s) t_check = true
         /\ _loading (cam s) = false
         /\ tasks s' !! i = Some (AwaitGet t_now)
         /\ issued s s' = [request (cam s)]).
Proof.
  intros Hstep. apply step_transition in Hstep.
  destruct Hstep as [i t_check t_now s Hi | i o now s Hi | i o now s Hi
                    | i s Hi].
  - unfold start.
    destruct (__needs_refresh (cam s) t_check) eqn:Hdue; cbn [negb].
    2: { left. erewrite issued_app; [| reflexivity]. reflexivity. }
    destruct (_loading (cam s)) eqn:Hload.
    { left. erewrite issued_app; [| reflexivity]. reflexivity. }
    right. exists i, t_check, t_now. repeat split; try done.
    + cbn [tasks]. apply lookup_insert_eq.
    + erewrite issued_app; [| reflexivity]. reflexivity.
  - left. apply after_retrieve_issued.
  - left. apply after_retrieve_issued.
  - left. unfold resume_wait. erewrite issued_app; [| reflexivity].
    reflexivity.
Qed.

(** C4 as stated fails when the sum of line 201 is not a datetime.  With
    a [_delta] of 10^12 seconds the first fetch stores image and token and
    ends with [OverflowError]; the next fetch carries the token and is
    answered 304, and again line 201 raises: the deadline is not set to
    the start of the fetch plus [_delta], it stays unset, and the call ends
    with the exception. *)
Lemma revalidation_overflow_counterexample :
  exists s2 s3,
    run [Run 0 (Datetime 0) (Datetime 0);
         GetDone 0 (GetResponse
                      (mkResponse 200 (Some "Sat, 03 Oct 2026 10:00:00 GMT")));
         ReadDone 0 (ReadOk [Byte.x47; Byte.x49; Byte.x46]);
         Run 1 (Datetime 5) (Datetime 5)]
        (idle (__init__ 700 1000000000000 "NL" 60)) = Some s2
    /\ tasks s2 !! 1%nat = Some (AwaitGet (Datetime 5))
    /\ step (GetDone 1 (GetResponse (mkResponse 304 None))) s2 = Some s3
    /\ _deadline (cam s3) = None
    /\ tasks s3 !! 1%nat = Some (Done (Raised OverflowError)).
Proof. do 2 eexists. repeat (split; [reflexivity |]). reflexivity. Qed.

(** C4 (conditional revalidation, amended): in every state the camera can
    get into, once a token is recorded in [_last_modified] every request a
    step issues carries it as [If-Modified-Since]; and a fetch answered 304
    leaves image and token as they are and, whenever the clock reading
    taken when the fetch started plus [_delta] is a datetime, sets the
    deadline to that sum and returns the image. *)
Theorem conditional_revalidation (s : sys) :
  reachable s ->
  (forall token,
      _last_modified (cam s) = Some token ->
      forall a s' r,
        step a s = Some s' -> r ∈ issued s s' ->
        req_headers r = {[ "If-Modified-Since" := token ]})
  /\ (forall i t_check t_now s',
         step (Run i t_check t_now) s = Some s' ->
         forall r, r ∈ issued s s' -> tasks s' !! i = Some (AwaitGet t_now))
  /\ (forall i now res,
         tasks s !! i = Some (AwaitGet now) ->
         status res = 304 ->
         exists s',
           step (GetDone i (GetResponse res)) s = Some s'
           /\ _last_image (cam s') = _last_image (cam s)
           /\ _last_modified (cam s') = _last_modified (cam s)
           /\ forall deadline,
                add_seconds now (_delta (cam s)) = Some deadline ->
                timestamp deadline = timestamp now + _delta (cam s)
                /\ _deadline (cam s') = Some deadline
                /\ tasks s' !! i
                   = Some (Done (Returned (_last_image (cam s))))).
Proof.
  intros Hreach. pose proof (reachable_token_ok _ Hreach) as Hok.
  split; [| split].
  - intros token Htok a s' r Hstep Hr.
    destruct (step_issued _ _ _ Hstep) as [Hnone | Hone].
    + rewrite Hnone in Hr. by apply elem_of_nil in Hr.
    + destruct Hone as (i & t_check & t_now & _ & _ & _ & _ & Hiss).
      rewrite Hiss in Hr. apply list_elem_of_singleton in Hr. subst r.
      cbn [request req_headers]. by apply headers_of_token.
  - intros i t_check t_now s' Hstep r Hr.
    destruct (step_issued _ _ _ Hstep) as [Hnone | Hone].
    + rewrite Hnone in Hr. by apply elem_of_nil in Hr.
    + destruct Hone as (i' & t_check' & t_now' & Ha & _ & _ & Hpc & _).
      by simplify_eq.
  - intros i now res Hi H304. cbn [step]. rewrite Hi.
    unfold on_response. rewrite H304. cbn [Z.leb Z.eqb Z.compare
      Pos.compare Pos.compare_cont Pos.eqb after_retrieve].
    eexists. split; [reflexivity |]. unfold conclude.
    destruct (add_seconds now (_delta (cam s))) as [d |] eqn:Hadd;
      cbn; (split; [done |]); (split; [done |]);
      intros deadline [= <-].
    split; [by apply (add_seconds_Some _ _ _ Hadd) |].
    split; [done |]. apply lookup_insert_eq.
Qed.

Lemma conditional_revalidation_witness :
  exists s1 s2 s3,
    run [Run 0 (Datetime 0) (Datetime 0);
         GetDone 0 (GetResponse
                      (mkResponse 200 (Some "Sat, 03 Oct 2026 10:00:00 GMT")));
         ReadDone 0 (ReadOk [Byte.x47; Byte.x49; Byte.x46])]
        (idle (__init__ 700 600 "NL" 60)) = Some s1
    /\ step (Run 1 (Datetime 601) (Datetime 602)) s1 = Some s2
    /\ (forall r, r ∈ issued s1 s2 ->
                  req_headers r
                  = {[ "If-Modified-Since" := "Sat, 03 Oct 2026 10:00:00 GMT" ]})
    /\ step (GetDone 1 (GetResponse (mkResponse 304 None))) s2 = Some s3
    /\ _last_image (cam s3) = Some [Byte.x47; Byte.x49; Byte.x46]
    /\ _last_modified (cam s3) = Some "Sat, 03 Oct 2026 10:00:00 GMT"
    /\ _deadline (cam s3) = Some (Datetime 1202).
Proof.
  pose (acts1 := [Run 0 (Datetime 0) (Datetime 0);
                  GetDone 0 (GetResponse
                      (mkResponse 200 (Some "Sat, 03 Oct 2026 10:00:00 GMT")));
                  ReadDone 0 (ReadOk [Byte.x47; Byte.x49; Byte.x46])]).
  pose (s0 := idle (__init__ 700 600 "NL" 60)).
  destruct (run acts1 s0) as [s1 |] eqn:Hs1; [| discriminate Hs1].
  destruct (step (Run 1 (Datetime 601) (Datetime 602)) s1) as [s2 |] eqn:Hs2;
    [| vm_compute in Hs1; injection Hs1 as <-; discriminate Hs2].
  assert (H1 : reachable s1).
  { exists 700, 600, "NL"%string, 60, acts1. exact Hs1. }
  pose proof (reachable_step _ _ _ H1 Hs2) as H2.
  destruct (conditional_revalidation s1 H1) as (Hhdr & _ & _).
  destruct (conditional_revalidation s2 H2) as (_ & _ & H304).
  assert (Htok : _last_modified (cam s1)
                 = Some "Sat, 03 Oct 2026 10:00:00 GMT"%string).
  { vm_compute in Hs1. by injection Hs1 as <-. }
  assert (Hpc : tasks s2 !! 1%nat = Some (AwaitGet (Datetime 602))).
  { vm_compute in Hs1. injection Hs1 as <-.
    vm_compute in Hs2. by injection Hs2 as <-. }
  destruct (H304 1%nat (Datetime 602) (mkResponse 304 None) Hpc eq_refl)
    as (s3 & Hs3 & Himg & Hlm & Hset).
  assert (Hdelta : _delta (cam s2) = 600).
  { vm_compute in Hs1. injection Hs1 as <-.
    vm_compute in Hs2. by injection Hs2 as <-. }
  destruct (Hset (Datetime 1202)) as (_ & Hdl & _).
  { rewrite Hdelta. reflexivity. }
  exists s1, s2, s3. split; [exact Hs1 |]. split; [exact Hs2 |].
  split; [intros r; exact (Hhdr _ Htok _ _ r Hs2) |].
  split; [exact Hs3 |].
  rewrite Himg, Hlm, Hdl.
  vm_compute in Hs1. injection Hs1 as <-.
  vm_compute in Hs2. injection Hs2 as <-.
  repeat split.
Defined.

(** ** Traces *)

Lemma requests_of_app (tr es : list event) :
  requests_of (tr ++ es) = requests_of tr ++ requests_of es.
Proof. apply omap_app. Qed.

Lemma settled_app (tr es : list event) :
  settled (tr ++ es) = settled tr || settled es.
Proof. apply existsb_app. Qed.

Lemma ends_after_settle_app (seen : bool) (tr es : list event) :
  ends_after_settle seen (tr ++ es)
  = ends_after_settle seen tr && ends_after_settle (seen || settled tr) es.
Proof.
  revert seen. induction tr as [| e tr IH]; intros seen; cbn.
  - by rewrite orb_false_r.
  - rewrite IH, andb_assoc. do 2 f_equal.
    by rewrite orb_assoc.
Qed.

Lemma lock_after_app (holder : option nat) (tr es : list event) :
  lock_after holder (tr ++ es)
  = lock_after holder tr ≫= fun holder' => lock_after holder' es.
Proof.
  revert holder. induction tr as [| e tr IH]; intros holder; [done |].
  destruct e; cbn [app lock_after]; repeat case_match; try done; apply IH.
Qed.

(** The events of one step take the lock only when it is free and leave
    it free. *)
Lemma step_lock (a : action) (s s' : sys) :
  step a s = Some s' ->
  lock_after None (trace s) = Some None ->
  lock_after None (trace s') = Some None.
Proof.
  intros Hstep Hfree.
  assert (Hev : forall es, lock_after None es = Some None ->
                           lock_after None (trace s ++ es) = Some None).
  { intros es Hes. by rewrite lock_after_app, Hfree. }
  assert (Hfin : forall i r self,
             lock_after None
               (trace (finally_block i r (mkSys self (tasks s) (trace s))))
             = Some None).
  { intros i r self. unfold finally_block. cbn [trace]. apply Hev.
    cbn. rewrite !decide_True by done. by destruct r. }
  apply step_transition in Hstep.
  destruct Hstep as [i t_check t_now s Hi | i o now s Hi | i o now s Hi
                    | i s Hi].
  - unfold start.
    repeat case_match; cbn [trace]; apply Hev; cbn;
      by rewrite ?decide_True.
  - destruct (on_response o (cam s)) as [self [was_updated | e |]];
      cbn [after_retrieve];
      [destruct (conclude now was_updated self); apply Hfin
      | apply Hfin | done].
  - destruct (on_body o (cam s)) as [self [was_updated | e |]];
      cbn [after_retrieve];
      [destruct (conclude now was_updated self); apply Hfin
      | apply Hfin | done].
  - unfold resume_wait. cbn [trace]. apply Hev. cbn.
    by rewrite decide_True.
Qed.

(** The lock of [self._condition] is free between any two steps, is never
    taken while held, and [notify_all] runs under it. *)
Lemma lock_discipline (acts : list action) (self : BuienradarCam) (s : sys) :
  run acts (idle self) = Some s -> lock_after None (trace s) = Some None.
Proof.
  assert (H : forall s0, lock_after None (trace s0) = Some None ->
                         run acts s0 = Some s ->
                         lock_after None (trace s) = Some None).
  { induction acts as [| a acts IH]; intros s0 Hfree Hrun; cbn in Hrun.
    - by injection Hrun as <-.
    - destruct (step a s0) as [s1 |] eqn:Hstep; [| discriminate].
      eauto using step_lock. }
  by apply H.
Qed.

(** ** Single flight *)

Lemma presettle_of_fetcher (s : sys) (i : nat) (p : pc) :
  single_flight_inv s -> tasks s !! i = Some p -> fetching p = true ->
  settled (trace s) = false.
Proof.
  intros (_ & _ & Hpost) Hi Hp.
  destruct (settled (trace s)) eqn:Hs; [| done].
  destruct (Hpost eq_refl) as (_ & _ & _ & Hts).
  destruct (Hts _ _ Hi) as [-> | [r ->]]; discriminate.
Qed.

Lemma finally_single_flight (i : nat) (r : result) (self : BuienradarCam)
    (s : sys) (p : pc) :
  flag_inv s -> single_flight_inv s ->
  tasks s !! i = Some p -> fetching p = true ->
  single_flight_inv (finally_block i r (mkSys self (tasks s) (trace s))).
Proof.
  intros Hflag Hsf Hi Hp.
  pose proof (presettle_of_fetcher _ _ _ Hsf Hi Hp) as Hpre.
  pose proof (loading_of_fetcher _ _ _ Hflag Hi Hp) as Hload.
  pose proof (only_fetcher _ _ _ Hflag Hi Hp) as Honly.
  destruct Hsf as (Hends & Hbefore & _).
  destruct (Hbefore Hpre) as (Hts & _ & Hone).
  unfold finally_block, single_flight_inv. cbn [cam tasks trace].
  split; [| split].
  - rewrite ends_after_settle_app, Hends, Hpre. by destruct r.
  - rewrite settled_app. cbn. by rewrite orb_true_r.
  - intros _. split; [done |]. split; [apply insert_non_empty |].
    split.
    + rewrite requests_of_app, length_app, (Hone Hload). by destruct r.
    + intros j q. rewrite lookup_insert. case_decide.
      { intros [= <-]. eauto. }
      rewrite lookup_notify_all.
      destruct (tasks s !! j) as [pj |] eqn:Hj; [| done].
      intros [= <-]. destruct (Hts _ _ Hj) as [Hf | ->]; [| by left].
      specialize (Honly _ _ Hj Hf). congruence.
Qed.

Lemma after_retrieve_single_flight (i : nat) (now : datetime) (p : pc)
    (r : BuienradarCam * retrieved) (s : sys) :
  flag_inv s -> single_flight_inv s ->
  tasks s !! i = Some p -> fetching p = true ->
  _loading r.1 = _loading (cam s) ->
  single_flight_inv (after_retrieve i now r s).
Proof.
  intros Hflag Hsf Hi Hp Hl. destruct r as [self out]. cbn [fst] in Hl.
  destruct out as [was_updated | e |]; cbn [after_retrieve];
    [destruct (conclude now was_updated self);
     by eapply finally_single_flight
    | by eapply finally_single_flight |].
  pose proof (presettle_of_fetcher _ _ _ Hsf Hi Hp) as Hpre.
  pose proof (loading_of_fetcher _ _ _ Hflag Hi Hp) as Hload.
  destruct Hsf as (Hends & Hbefore & _).
  destruct (Hbefore Hpre) as (Hts & _ & Hone).
  unfold single_flight_inv. cbn [cam tasks trace].
  split; [done |]. split; [| congruence].
  intros _. split; [| split; [congruence | by intros _; apply Hone]].
  intros j q. rewrite lookup_insert. case_decide.
  - intros [= <-]. by left.
  - apply Hts.
Qed.

Lemma start_single_flight (i : nat) (t_check t_now : datetime) (s : sys) :
  single_flight_inv s ->
  tasks s !! i = None ->
  __needs_refresh (cam s) t_check = true ->
  settled (trace s) = false ->
  single_flight_inv (start i t_check t_now s).
Proof.
  intros (Hends & Hbefore & _) Hnew Hdue Hpre.
  destruct (Hbefore Hpre) as (Hts & Hnone & Hone).
  unfold start, single_flight_inv. rewrite Hdue. cbn [negb].
  destruct (_loading (cam s)) eqn:Hload;
    cbn [cam tasks trace set_loading _loading]; rewrite ?Hload.
  - split; [| split].
    + by rewrite ends_after_settle_app, Hends, Hpre.
    + intros _. split; [| split; [done |]].
      * intros j q. rewrite lookup_insert. case_decide.
        -- intros [= <-]. by right.
        -- apply Hts.
      * intros _. rewrite requests_of_app, length_app, (Hone eq_refl).
        reflexivity.
    + rewrite settled_app, Hpre. discriminate.
  - destruct (Hnone eq_refl) as [Hempty Hreq].
    split; [| split].
    + by rewrite ends_after_settle_app, Hends, Hpre.
    + intros _. split; [| split; [done |]].
      * intros j q. rewrite Hempty, lookup_insert. case_decide.
        -- intros [= <-]. by left.
        -- by rewrite lookup_empty.
      * intros _. by rewrite requests_of_app, Hreq.
    + rewrite settled_app, Hpre. discriminate.
Qed.

Lemma resume_wait_single_flight (i : nat) (s : sys) :
  single_flight_inv s ->
  tasks s !! i = Some (CondWait true) ->
  single_flight_inv (resume_wait i s).
Proof.
  intros (Hends & Hbefore & Hafter) Hi.
  assert (Hset : settled (trace s) = true).
  { destruct (settled (trace s)) eqn:Hs; [done |].
    destruct (Hbefore eq_refl) as (Hts & _).
    destruct (Hts _ _ Hi); discriminate. }
  destruct (Hafter Hset) as (Hload & Hne & Hone & Hts).
  unfold resume_wait, single_flight_inv. cbn [cam tasks trace].
  split; [| split].
  - by rewrite ends_after_settle_app, Hends, Hset.
  - rewrite settled_app, Hset. discriminate.
  - intros _. split; [done |]. split; [apply insert_non_empty |]. split.
    + by rewrite requests_of_app, length_app, Hone.
    + intros j q. rewrite lookup_insert. case_decide.
      * intros [= <-]. eauto.
      * apply Hts.
Qed.

Lemma step_single_flight (a : action) (s s' : sys) :
  flag_inv s -> single_flight_inv s ->
  step a s = Some s' ->
  calls_due_before_settle [a] s = true ->
  single_flight_inv s'.
Proof.
  intros Hflag Hsf Hstep Hdue. apply step_transition in Hstep.
  destruct Hstep as [i t_check t_now s Hi | i o now s Hi | i o now s Hi
                    | i s Hi].
  - cbn in Hdue.
    apply andb_prop in Hdue as [Hdue _].
    apply andb_prop in Hdue as [Hdue Hpre].
    apply negb_true_iff in Hpre. by apply start_single_flight.
  - eapply after_retrieve_single_flight; eauto with cam.
  - eapply after_retrieve_single_flight; eauto with cam.
  - by apply resume_wait_single_flight.
Qed.

Lemma run_single_flight (acts : list action) (s s' : sys) :
  flag_inv s -> single_flight_inv s ->
  run acts s = Some s' ->
  calls_due_before_settle acts s = true ->
  flag_inv s' /\ single_flight_inv s'.
Proof.
  revert s. induction acts as [| a acts IH]; intros s Hflag Hsf Hrun Hdue.
  - cbn in Hrun. by injection Hrun as <-.
  - cbn [run] in Hrun. cbn [calls_due_before_settle] in Hdue.
    destruct (step a s) as [s1 |] eqn:Hstep; [| discriminate].
    apply andb_prop in Hdue as [Ha Hrest].
    apply (IH s1); try done.
    + by eapply step_flag_inv.
    + eapply step_single_flight; try done.
      cbn [calls_due_before_settle]. rewrite Ha, Hstep. done.
Qed.

Lemma idle_single_flight (self : BuienradarCam) :
  _loading self = false -> single_flight_inv (idle self).
Proof.
  intros Hload. unfold single_flight_inv. cbn. rewrite Hload.
  split; [done |]. split; [| discriminate].
  intros _. split; [| done]. intros i p. by rewrite lookup_empty.
Qed.

(** C1 (single flight): take a camera with no fetch in flight and any
    schedule in which every call starts while a refresh is due and before
    the fetch has settled.  Then one request is issued if any call has
    started (none otherwise), no call ends before the fetch has settled,
    until then one call fetches and every other call is blocked in
    [wait()], and afterwards every call has ended or is notified and ends
    as soon as it is run, returning the cached image. *)
Theorem single_flight (self : BuienradarCam) (acts : list action) (s : sys) :
  _loading self = false ->
  run acts (idle self) = Some s ->
  calls_due_before_settle acts (idle self) = true ->
  length (requests_of (trace s)) = Nat.min 1 (size (tasks s))
  /\ ends_after_settle false (trace s) = true
  /\ (settled (trace s) = false ->
      forall i p, tasks s !! i = Some p ->
        p = CondWait false
        \/ (fetching p = true
            /\ forall j q, tasks s !! j = Some q -> fetching q = true ->
                           j = i))
  /\ (settled (trace s) = true ->
      forall i p, tasks s !! i = Some p ->
        (exists r, p = Done r)
        \/ (p = CondWait true
            /\ exists s',
                 step (Wake i) s = Some s'
                 /\ tasks s' !! i
                    = Some (Done (Returned (_last_image (cam s)))))).
Proof.
  intros Hload Hrun Hdue.
  destruct (run_single_flight acts (idle self) s) as [Hflag Hsf];
    auto using idle_flag_inv, idle_single_flight.
  destruct Hsf as (Hends & Hbefore & Hafter).
  split; [| split; [done |]; split].
  - destruct (settled (trace s)) eqn:Hs.
    + destruct (Hafter eq_refl) as (_ & Hne & -> & _).
      destruct (size (tasks s)) as [| n] eqn:Hsz; [| by destruct n].
      by apply map_size_empty_iff in Hsz.
    + destruct (Hbefore eq_refl) as (Hts & Hnone & Hone).
      destruct (_loading (cam s)) eqn:Hl.
      * rewrite (Hone eq_refl).
        destruct (size (tasks s)) as [| n] eqn:Hsz; [| by destruct n].
        apply map_size_empty_iff in Hsz.
        destruct Hflag as (_ & Hfl & _).
        destruct (proj1 Hfl Hl) as (i & p & Hi & _).
        by rewrite Hsz, lookup_empty in Hi.
      * destruct (Hnone eq_refl) as [-> ->]. by rewrite map_size_empty.
  - intros Hs i p Hi. destruct (Hbefore Hs) as (Hts & _).
    destruct (Hts _ _ Hi) as [Hf | ->]; [right | by left].
    split; [done |]. intros j q Hj Hq.
    by eapply (only_fetcher s i p).
  - intros Hs i p Hi. destruct (Hafter Hs) as (_ & _ & _ & Hts).
    destruct (Hts _ _ Hi) as [-> | [r ->]]; [right | eauto].
    split; [done |]. cbn [step]. rewrite Hi. eexists. split; [done |].
    unfold resume_wait. cbn [tasks]. apply lookup_insert_eq.
Qed.

Lemma single_flight_witness :
  let self := __init__ 700 600 "NL" 60 in
  let acts :=
    [Run 0 (Datetime 0) (Datetime 0);
     Run 1 (Datetime 1) (Datetime 1);
     GetDone 0 (GetResponse (mkResponse 200 None));
     Run 2 (Datetime 2) (Datetime 2);
     ReadDone 0 (ReadOk [Byte.x47; Byte.x49; Byte.x46]);
     Wake 2; Wake 1] in
  exists s,
    run acts (idle self) = Some s
    /\ size (tasks s) = 3%nat
    /\ length (requests_of (trace s)) = 1%nat
    /\ ends_after_settle false (trace s) = true
    /\ tasks s !! 1%nat
       = Some (Done (Returned (Some [Byte.x47; Byte.x49; Byte.x46]))).
Proof.
  intros self acts.
  destruct (run acts (idle self)) as [s |] eqn:Hrun; [| discriminate Hrun].
  exists s. split; [reflexivity |].
  destruct (single_flight self acts s eq_refl Hrun eq_refl)
    as (Hone & Hends & _ & _).
  assert (Hsize : size (tasks s) = 3%nat).
  { vm_compute in Hrun. by injection Hrun as <-. }
  split; [exact Hsize |]. split; [by rewrite Hone, Hsize |].
  split; [exact Hends |].
  vm_compute in Hrun. by injection Hrun as <-.
Defined.

(** A call that starts after a failed fetch has settled, while the waiters
    of that fetch have not run yet, finds the flag reset and a refresh
    still due, and starts a fetch of its own. *)
Lemma late_call_starts_own_fetch :
  exists s,
    run [Run 0 (Datetime 0) (Datetime 0);
         Run 1 (Datetime 1) (Datetime 1);
         GetDone 0 (GetRaise TimeoutError);
         Run 2 (Datetime 2) (Datetime 2)]
        (idle (__init__ 700 600 "NL" 60)) = Some s
    /\ tasks s !! 1%nat = Some (CondWait true)
    /\ tasks s !! 2%nat = Some (AwaitGet (Datetime 2))
    /\ length (requests_of (trace s)) = 2%nat.
Proof. eexists. repeat (split; [reflexivity |]). reflexivity. Qed.

(** ** A call that runs alone *)

(** On the fast path the call returns the cached image and nothing else
    happens. *)
Lemma call_alone_fresh (i : nat) (t_check t_now : datetime)
    (net : get_outcome * read_outcome) (s : sys) :
  tasks s !! i = None ->
  __needs_refresh (cam s) t_check = false ->
  call_alone i t_check t_now net s
  = Some (mkSys (cam s) (<[i := Done (Returned (_last_image (cam s)))]> (tasks s))
                (trace s ++ [EvReturn i (_last_image (cam s))])).
Proof.
  intros Hnew Hfresh. unfold call_alone, step, start.
  rewrite Hnew, Hfresh. simpl. rewrite lookup_insert_eq. simpl.
  by rewrite lookup_insert_eq.
Qed.

(** When a refresh is due and no fetch is in flight, the call issues one
    request, ends, and leaves the flag reset; the deadline moves to
    [t_now + _delta] exactly when the fetch counts as an update and the
    sum is a datetime. *)
Lemma call_alone_due (i : nat) (t_check t_now : datetime)
    (net : get_outcome * read_outcome) (s : sys) :
  tasks s !! i = None ->
  __needs_refresh (cam s) t_check = true ->
  _loading (cam s) = false ->
  exists s',
    call_alone i t_check t_now net s = Some s'
    /\ issued s s' = [request (cam s)]
    /\ (exists r, tasks s' !! i = Some (Done r))
    /\ _loading (cam s') = false
    /\ _delta (cam s') = _delta (cam s)
    /\ _deadline (cam s')
       = (if was_updated net (cam s)
          then match add_seconds t_now (_delta (cam s)) with
               | Some deadline => Some deadline
               | None => _deadline (cam s)
               end
          else _deadline (cam s)).
Proof.
  intros Hnew Hdue Hload. destruct net as [g r].
  unfold call_alone, step, start, was_updated, on_response.
  rewrite Hnew, Hdue, Hload. simpl. rewrite lookup_insert_eq.
  destruct g as [[] | res]; [| | | | destruct (400 <=? status res);
    [| destruct (status res =? 304);
       [| destruct r as [body | []];
          destruct (truthy (last_modified_header res))]]];
    repeat progress (simpl; rewrite ?lookup_insert_eq);
    try destruct (add_seconds t_now (_delta (cam s)));
    repeat progress (simpl; rewrite ?lookup_insert_eq);
    eexists; (split; [reflexivity |]);
    (split; [erewrite issued_app;
             [| simpl; by rewrite <- app_assoc]; done |]);
    simpl; rewrite ?lookup_insert_eq; eauto 10.
Qed.

(** ** Time to live *)

Lemma needs_refresh_cached (self : BuienradarCam) (deadline utcnow : datetime)
    (b : Byte.byte) (image : bytes) :
  _delta self <> 0 ->
  _deadline self = Some deadline ->
  _last_image self = Some (b :: image) ->
  __needs_refresh self utcnow = dt_gt utcnow deadline.
Proof.
  intros Hd Hdl Himg. unfold __needs_refresh. rewrite Hdl, Himg.
  unfold truthy, truthy_optional, truthy_int.
  destruct (Z.eqb_spec (_delta self) 0); [done |]. reflexivity.
Qed.

(** C2 as stated fails at the boundary: after a successful fetch that
    started at time 0 with a time to live of 600, a call at time 600 issues
    no request.  It also fails before the boundary when the fetch has
    delivered an empty body: the call at time 1 issues a request.  And it
    fails before the boundary when the time to live is so long (10^12
    seconds) that line 201 raises [OverflowError] and sets no deadline:
    the call at time 1 issues a request. *)
Lemma ttl_boundary_counterexample :
  (let net := (GetResponse (mkResponse 200 None),
               ReadOk [Byte.x47; Byte.x49; Byte.x46]) in
   let s0 := idle (__init__ 700 600 "NL" 60) in
   exists s1 s2,
     call_alone 0 (Datetime 0) (Datetime 0) net s0 = Some s1
     /\ was_updated net (cam s0) = true
     /\ call_alone 1 (Datetime 600) (Datetime 600) net s1 = Some s2
     /\ 0 + 600 <= 600
     /\ length (issued s1 s2) <> 1%nat)
  /\
  (let net := (GetResponse (mkResponse 200 None), ReadOk []) in
   let s0 := idle (__init__ 700 600 "NL" 60) in
   exists s1 s2,
     call_alone 0 (Datetime 0) (Datetime 0) net s0 = Some s1
     /\ was_updated net (cam s0) = true
     /\ call_alone 1 (Datetime 1) (Datetime 1) net s1 = Some s2
     /\ 1 < 0 + 600
     /\ issued s1 s2 <> [])
  /\
  (let net := (GetResponse (mkResponse 200 None),
               ReadOk [Byte.x47; Byte.x49; Byte.x46]) in
   let s0 := idle (__init__ 700 1000000000000 "NL" 60) in
   exists s1 s2,
     call_alone 0 (Datetime 0) (Datetime 0) net s0 = Some s1
     /\ was_updated net (cam s0) = true
     /\ call_alone 1 (Datetime 1) (Datetime 1) net s1 = Some s2
     /\ 1 < 0 + 1000000000000
     /\ issued s1 s2 <> []).
Proof.
  split; [| split]; intros net s0; do 2 eexists;
    (split; [reflexivity |]); (split; [reflexivity |]);
    (split; [reflexivity |]); (split; [lia |]); vm_compute; discriminate.
Qed.

(** C2 (time to live, amended): after a call whose fetch started at time
    [T], counted as an update and left a non-empty image cached, with a
    non-zero [_delta] of [D] seconds such that [T + D] is a datetime (line
    201 does not raise), a call at any time up to and including [T + D]
    returns the cached image, issues no request and leaves the camera as
    it is, and a call at a time after [T + D] issues exactly one
    request. *)
Theorem ttl_correctness (s0 s1 : sys) (i : nat) (t0 T : datetime)
    (net : get_outcome * read_outcome) (b : Byte.byte) (image : bytes)
    (deadline : datetime) :
  tasks s0 !! i = None ->
  _loading (cam s0) = false ->
  __needs_refresh (cam s0) t0 = true ->
  call_alone i t0 T net s0 = Some s1 ->
  was_updated net (cam s0) = true ->
  _delta (cam s0) <> 0 ->
  add_seconds T (_delta (cam s0)) = Some deadline ->
  _last_image (cam s1) = Some (b :: image) ->
  forall j t_check t_now net',
    tasks s1 !! j = None ->
    exists s2,
      call_alone j t_check t_now net' s1 = Some s2
      /\ (timestamp t_check <= timestamp T + _delta (cam s0) ->
          issued s1 s2 = []
          /\ cam s2 = cam s1
          /\ tasks s2 !! j = Some (Done (Returned (Some (b :: image)))))
      /\ (timestamp T + _delta (cam s0) < timestamp t_check ->
          issued s1 s2 = [request (cam s1)]).
Proof.
  intros Hnew Hload Hdue Hcall Hupd Hdelta Hadd Himg
         j t_check t_now net' Hj.
  destruct (call_alone_due i t0 T net s0 Hnew Hdue Hload)
    as (s1' & Hcall' & _ & _ & Hload1 & Hdelta1 & Hdl1).
  rewrite Hcall in Hcall'. injection Hcall' as <-.
  rewrite Hupd, Hadd in Hdl1.
  assert (Hnr : __needs_refresh (cam s1) t_check = dt_gt t_check deadline).
  { eapply needs_refresh_cached; eauto. congruence. }
  unfold dt_gt in Hnr.
  rewrite (proj1 (add_seconds_Some _ _ _ Hadd)) in Hnr.
  destruct (Z.ltb_spec (timestamp T + _delta (cam s0)) (timestamp t_check))
    as [Hlate | Hearly].
  - destruct (call_alone_due j t_check t_now net' s1 Hj Hnr Hload1)
      as (s2 & Hcall2 & Hiss & _).
    exists s2. split; [done |]. split; [lia | done].
  - rewrite (call_alone_fresh j t_check t_now net' s1 Hj Hnr).
    eexists. split; [reflexivity |]. split; [| lia].
    intros _. split; [| split; [reflexivity |]].
    + erewrite issued_app; [| reflexivity]. reflexivity.
    + cbn [tasks]. by rewrite lookup_insert_eq, Himg.
Qed.

Lemma ttl_correctness_witness :
  let net := (GetResponse (mkResponse 200 None),
              ReadOk [Byte.x47; Byte.x49; Byte.x46]) in
  let s0 := idle (__init__ 700 600 "NL" 60) in
  exists s1 s2 s3,
    call_alone 0 (Datetime 0) (Datetime 0) net s0 = Some s1
    /\ call_alone 1 (Datetime 600) (Datetime 600) net s1 = Some s2
    /\ issued s1 s2 = []
    /\ call_alone 1 (Datetime 601) (Datetime 601) net s1 = Some s3
    /\ issued s1 s3 = [request (cam s1)].
Proof.
  intros net s0.
  destruct (call_alone 0 (Datetime 0) (Datetime 0) net s0) as [s1 |] eqn:H1;
    [| discriminate H1].
  assert (Himg : _last_image (cam s1)
                 = Some [Byte.x47; Byte.x49; Byte.x46]).
  { vm_compute in H1. by injection H1 as <-. }
  assert (Hnew : tasks s1 !! 1%nat = None).
  { vm_compute in H1. by injection H1 as <-. }
  pose proof (ttl_correctness s0 s1 0 (Datetime 0) (Datetime 0) net
                Byte.x47 [Byte.x49; Byte.x46] (Datetime 600)
                eq_refl eq_refl eq_refl H1 eq_refl
                ltac:(discriminate) eq_refl Himg) as Httl.
  destruct (Httl 1%nat (Datetime 600) (Datetime 600) net Hnew)
    as (s2 & H2 & Hearly & _).
  destruct (Httl 1%nat (Datetime 601) (Datetime 601) net Hnew)
    as (s3 & H3 & _ & Hlate).
  exists s1, s2, s3. split; [reflexivity |]. split; [exact H2 |].
  split; [apply Hearly; cbn; lia |]. split; [exact H3 |].
  apply Hlate. cbn. lia.
Defined.

(** ** Failed fetches *)

Lemma set_loading_back (self : BuienradarCam) :
  _loading self = false -> set_loading false (set_loading true self) = self.
Proof. destruct self. cbn. by intros ->. Qed.

(** A fetch that fails before any response header is handled
    ([session.get] raises a caught exception, or the status is 400 or
    more) leaves the camera as it was, and the call returns the cached
    image. *)
Lemma failed_request_unchanged (i : nat) (t_check t_now : datetime)
    (g : get_outcome) (r : read_outcome) (s : sys) :
  tasks s !! i = None ->
  __needs_refresh (cam s) t_check = true ->
  _loading (cam s) = false ->
  match g with
  | GetRaise e => caught e = true
  | GetResponse res => 400 <= status res
  end ->
  exists s',
    call_alone i t_check t_now (g, r) s = Some s'
    /\ cam s' = cam s
    /\ tasks s' !! i = Some (Done (Returned (_last_image (cam s)))).
Proof.
  intros Hnew Hdue Hload Hfail.
  unfold call_alone, step, start, on_response.
  rewrite Hnew, Hdue, Hload. simpl. rewrite lookup_insert_eq.
  destruct g as [e | res].
  - unfold raised_in_try. rewrite Hfail.
    repeat progress (simpl; rewrite ?lookup_insert_eq).
    eexists. split; [reflexivity |]. simpl.
    rewrite lookup_insert_eq. by rewrite set_loading_back.
  - apply Z.leb_le in Hfail. rewrite Hfail.
    repeat progress (simpl; rewrite ?lookup_insert_eq).
    eexists. split; [reflexivity |]. simpl.
    rewrite lookup_insert_eq. by rewrite set_loading_back.
Qed.

(** C3 fails on the code: the response of a first fetch arrives with
    status 200 and a [Last-Modified] header, then [res.read()] times out.
    The fetch counts as failed and the call returns [None] without an
    exception, but [_last_modified] has changed from [None] to the header
    value while [_last_image] and [_deadline] have not. *)
Theorem failed_read_changes_token :
  let net := (GetResponse
                (mkResponse 200 (Some "Sat, 03 Oct 2026 10:00:00 GMT")),
              ReadRaise TimeoutError) in
  let s0 := idle (__init__ 700 600 "NL" 60) in
  exists s1,
    call_alone 0 (Datetime 0) (Datetime 0) net s0 = Some s1
    /\ was_updated net (cam s0) = false
    /\ tasks s1 !! 0%nat = Some (Done (Returned None))
    /\ _last_image (cam s1) = _last_image (cam s0)
    /\ _deadline (cam s1) = _deadline (cam s0)
    /\ _last_modified (cam s0) = None
    /\ _last_modified (cam s1) = Some "Sat, 03 Oct 2026 10:00:00 GMT".
Proof. intros net s0. eexists. repeat (split; [reflexivity |]). reflexivity. Qed.

(** The cached image is never taken away again. *)
Lemma last_image_kept (a : action) (s s' : sys) :
  step a s = Some s' ->
  is_Some (_last_image (cam s)) -> is_Some (_last_image (cam s')).
Proof.
  intros Hstep Himg. apply step_transition in Hstep.
  destruct Hstep as [i t_check t_now s Hi | i o now s Hi | i o now s Hi
                    | i s Hi].
  - unfold start. by repeat case_match.
  - destruct (after_retrieve_fields i now (on_response o (cam s)) s)
      as (-> & _).
    unfold on_response, raised_in_try. by repeat case_match.
  - destruct (after_retrieve_fields i now (on_body o (cam s)) s)
      as (-> & _).
    unfold on_body, raised_in_try. by repeat case_match.
  - done.
Qed.

(** C8 fails on the code: after the first fetch has stored the token and
    lost the body, the second fetch carries the token, is answered 304 and
    counts as an update; its call returns [None], and so does the call
    after it. *)
Theorem none_after_successful_fetch :
  let net1 := (GetResponse
                 (mkResponse 200 (Some "Sat, 03 Oct 2026 10:00:00 GMT")),
               ReadRaise TimeoutError) in
  let net2 := (GetResponse (mkResponse 304 None), ReadOk []) in
  let net3 := (GetRaise TimeoutError, ReadOk []) in
  let s0 := idle (__init__ 700 600 "NL" 60) in
  exists s1 s2 s3,
    call_alone 0 (Datetime 0) (Datetime 0) net1 s0 = Some s1
    /\ call_alone 1 (Datetime 10) (Datetime 10) net2 s1 = Some s2
    /\ req_headers <$> issued s1 s2
       = [ {[ "If-Modified-Since" := "Sat, 03 Oct 2026 10:00:00 GMT" ]} ]
    /\ was_updated net2 (cam s1) = true
    /\ _deadline (cam s2) = Some (Datetime 610)
    /\ tasks s2 !! 1%nat = Some (Done (Returned None))
    /\ call_alone 2 (Datetime 20) (Datetime 20) net3 s2 = Some s3
    /\ tasks s3 !! 2%nat = Some (Done (Returned None)).
Proof.
  intros net1 net2 net3 s0. do 3 eexists.
  repeat (split; [reflexivity |]). reflexivity.
Qed.

(** * Further properties *)

(** ** The lock *)

(** A step appends its events to the trace, and they keep the rules of
    the lock. *)
Lemma step_events (a : action) (s s' : sys) :
  step a s = Some s' ->
  exists es, trace s' = trace s ++ es /\ lock_after None es = Some None.
Proof.
  intros Hstep. apply step_transition in Hstep.
  destruct Hstep as [i t_check t_now s Hi | i o now s Hi | i o now s Hi
                    | i s Hi].
  - unfold start. repeat case_match; cbn [trace]; eexists;
      (split; [reflexivity |]); cbn; by rewrite ?decide_True.
  - destruct (on_response o (cam s)) as [c [was_updated | e |]];
      cbn [after_retrieve];
      [destruct (conclude now was_updated c) as [c' [image | e]] | |];
      cbn [finally_block trace];
      try (eexists; split; [reflexivity |]; cbn; by rewrite !decide_True).
    exists []. by rewrite app_nil_r.
  - destruct (on_body o (cam s)) as [c [was_updated | e |]];
      cbn [after_retrieve];
      [destruct (conclude now was_updated c) as [c' [image | e]] | |];
      cbn [finally_block trace];
      try (eexists; split; [reflexivity |]; cbn; by rewrite !decide_True).
    exists []. by rewrite app_nil_r.
  - unfold resume_wait. cbn [trace]. eexists. split; [reflexivity |].
    cbn. by rewrite decide_True.
Qed.

(** X1: along every schedule, started from any camera, the lock of
    [self._condition] is taken only when free, released only by its
    holder, held whenever [notify_all] is called, not held when a request
    is sent, and free between any two steps; the same holds for the events
    of each further step taken alone. *)
Theorem lock_free_between_steps (acts : list action) (self : BuienradarCam)
    (s : sys) :
  run acts (idle self) = Some s ->
  lock_after None (trace s) = Some None
  /\ forall a s', step a s = Some s' ->
       exists es, trace s' = trace s ++ es
                  /\ lock_after None es = Some None.
Proof.
  intros Hrun. split; [by eapply lock_discipline |].
  intros a s'. apply step_events.
Qed.

Lemma lock_free_between_steps_witness :
  let acts := [Run 0 (Datetime 0) (Datetime 0);
               Run 1 (Datetime 1) (Datetime 1);
               GetDone 0 (GetRaise OtherException); Wake 1] in
  exists s,
    run acts (idle (__init__ 700 600 "NL" 60)) = Some s
    /\ lock_after None (trace s) = Some None.
Proof.
  intros acts.
  destruct (run acts (idle (__init__ 700 600 "NL" 60))) as [s |] eqn:Hrun;
    [| discriminate Hrun].
  exists s. split; [reflexivity |].
  exact (proj1 (lock_free_between_steps acts _ s Hrun)).
Defined.

(** ** Requests *)

(** X2: a step sends a request only when it starts a call while a refresh
    is due and no fetch is in flight, and then it sends exactly one, built
    from the camera as it is; a call that finds the flag set, a notified
    waiter and the continuation of a fetch send none. *)
Theorem request_only_from_starting_call (a : action) (s s' : sys) :
  step a s = Some s' ->
  issued s s'
  = match a with
    | Run _ t_check _ =>
        if __needs_refresh (cam s) t_check && negb (_loading (cam s))
        then [request (cam s)]
        else []
    | _ => []
    end.
Proof.
  intros Hstep. apply step_transition in Hstep.
  destruct Hstep as [i t_check t_now s Hi | i o now s Hi | i o now s Hi
                    | i s Hi].
  - unfold start.
    destruct (__needs_refresh (cam s) t_check), (_loading (cam s));
      cbn [negb andb]; (erewrite issued_app; [| reflexivity]); reflexivity.
  - apply after_retrieve_issued.
  - apply after_retrieve_issued.
  - unfold resume_wait. erewrite issued_app; [| reflexivity]. reflexivity.
Qed.

Lemma request_only_from_starting_call_witness :
  let s := idle (__init__ 700 600 "NL" 60) in
  issued s (start 0 (Datetime 0) (Datetime 0) s) = [request (cam s)].
Proof.
  intros s.
  exact (request_only_from_starting_call
           (Run 0 (Datetime 0) (Datetime 0)) s _ eq_refl).
Defined.

(** The configuration of the camera is never written. *)
Lemma step_config (a : action) (s s' : sys) :
  step a s = Some s' ->
  _dimension (cam s') = _dimension (cam s)
  /\ _delta (cam s') = _delta (cam s)
  /\ _country (cam s') = _country (cam s)
  /\ _radar_timeframe (cam s') = _radar_timeframe (cam s).
Proof.
  intros Hstep. apply step_transition in Hstep.
  destruct Hstep as [i t_check t_now s Hi | i o now s Hi | i o now s Hi
                    | i s Hi].
  - unfold start. by repeat case_match.
  - destruct (after_retrieve_fields i now (on_response o (cam s)) s)
      as (_ & _ & -> & -> & -> & ->).
    unfold on_response, raised_in_try. by repeat case_match.
  - destruct (after_retrieve_fields i now (on_body o (cam s)) s)
      as (_ & _ & -> & -> & -> & ->).
    unfold on_body, raised_in_try. by repeat case_match.
  - done.
Qed.

Lemma url_config (self self' : BuienradarCam) :
  _dimension self' = _dimension self ->
  _country self' = _country self ->
  _radar_timeframe self' = _radar_timeframe self ->
  url self' = url self.
Proof. unfold url. by intros -> -> ->. Qed.

Lemma step_requests (a : action) (s s' : sys) :
  step a s = Some s' ->
  requests_of (trace s') = requests_of (trace s) ++ issued s s'.
Proof.
  intros Hstep. destruct (step_events _ _ _ Hstep) as (es & Hes & _).
  by rewrite (issued_app _ _ _ Hes), Hes, requests_of_app.
Qed.

(** X3: the configuration of a camera ([_dimension], [_delta], [_country],
    [_radar_timeframe]) is the same after any schedule, and every request
    sent along the way goes to the one URL computed from it, with a timeout
    of 5. *)
Theorem every_request_same_url (acts : list action) (self : BuienradarCam)
    (s : sys) :
  run acts (idle self) = Some s ->
  (_dimension (cam s) = _dimension self
   /\ _delta (cam s) = _delta self
   /\ _country (cam s) = _country self
   /\ _radar_timeframe (cam s) = _radar_timeframe self)
  /\ forall r, r ∈ requests_of (trace s) ->
                req_url r = url self /\ req_timeout r = 5.
Proof.
  assert (H : forall s0,
             run acts s0 = Some s ->
             (forall r, r ∈ requests_of (trace s0) ->
                        req_url r = url (cam s0) /\ req_timeout r = 5) ->
             (_dimension (cam s) = _dimension (cam s0)
              /\ _delta (cam s) = _delta (cam s0)
              /\ _country (cam s) = _country (cam s0)
              /\ _radar_timeframe (cam s) = _radar_timeframe (cam s0))
             /\ forall r, r ∈ requests_of (trace s) ->
                           req_url r = url (cam s0) /\ req_timeout r = 5).
  { induction acts as [| a acts IH]; intros s0 Hrun Hreq; cbn in Hrun.
    - by injection Hrun as <-.
    - destruct (step a s0) as [s1 |] eqn:Hstep; [| discriminate].
      destruct (step_config _ _ _ Hstep) as (Hd & Hdl & Hc & Ht).
      pose proof (url_config _ _ Hd Hc Ht) as Hurl.
      destruct (IH s1 Hrun) as [Hcfg Hall].
      + intros r. rewrite (step_requests _ _ _ Hstep), elem_of_app.
        intros [Hr | Hr]; [rewrite Hurl; by apply Hreq |].
        destruct (step_issued _ _ _ Hstep)
          as [Hnone | (i & t1 & t2 & _ & _ & _ & _ & Hone)].
        * rewrite Hnone in Hr. by apply elem_of_nil in Hr.
        * rewrite Hone in Hr. apply list_elem_of_singleton in Hr.
          subst r. by rewrite Hurl.
      + split; [| by rewrite <- Hurl]. destruct Hcfg as (-> & -> & -> & ->).
        done. }
  intros Hrun. apply (H (idle self) Hrun).
  intros r Hr. by apply elem_of_nil in Hr.
Qed.

Lemma every_request_same_url_witness :
  let self := __init__ 700 600 "BE" 25 in
  let acts := [Run 0 (Datetime 0) (Datetime 0);
               GetDone 0 (GetRaise TimeoutError);
               Run 1 (Datetime 5) (Datetime 5)] in
  exists s,
    run acts (idle self) = Some s
    /\ length (requests_of (trace s)) = 2%nat
    /\ forall r, r ∈ requests_of (trace s) ->
                  req_url r = url self /\ req_timeout r = 5.
Proof.
  intros self acts.
  destruct (run acts (idle self)) as [s |] eqn:Hrun; [| discriminate Hrun].
  exists s. split; [reflexivity |]. split.
  - vm_compute in Hrun. by injection Hrun as <-.
  - exact (proj2 (every_request_same_url acts self s Hrun)).
Defined.

(** ** Fetches one after the other *)

Lemma count_settles_app (tr es : list event) :
  count_settles (tr ++ es) = (count_settles tr + count_settles es)%nat.
Proof. induction tr as [| e tr IH]; cbn; [done | rewrite IH; lia]. Qed.

Lemma step_alternation (a : action) (s s' : sys) :
  flag_inv s ->
  step a s = Some s' ->
  length (requests_of (trace s))
  = (count_settles (trace s) + (if _loading (cam s) then 1 else 0))%nat ->
  length (requests_of (trace s'))
  = (count_settles (trace s') + (if _loading (cam s') then 1 else 0))%nat.
Proof.
  intros Hflag Hstep Heq. apply step_transition in Hstep.
  assert (Hfin : forall i now r p,
             tasks s !! i = Some p -> fetching p = true ->
             _loading r.1 = _loading (cam s) ->
             length (requests_of (trace (after_retrieve i now r s)))
             = (count_settles (trace (after_retrieve i now r s))
                + (if _loading (cam (after_retrieve i now r s))
                   then 1 else 0))%nat).
  { intros i now [c out] p Hi Hp Hl. cbn [fst] in Hl.
    rewrite (loading_of_fetcher _ _ _ Hflag Hi Hp) in Hl, Heq.
    destruct out as [was_updated | e |]; cbn [after_retrieve];
      [destruct (conclude now was_updated c) as [c' [image | e]] | |];
      cbn [finally_block trace cam set_loading _loading];
      try (rewrite requests_of_app, count_settles_app, length_app, Heq;
           cbn; lia).
    by rewrite Hl. }
  destruct Hstep as [i t_check t_now s Hi | i o now s Hi | i o now s Hi
                    | i s Hi].
  - unfold start.
    destruct (__needs_refresh (cam s) t_check), (_loading (cam s)) eqn:Hl;
      cbn [negb trace cam set_loading _loading]; rewrite ?Hl;
      rewrite requests_of_app, count_settles_app, length_app, Heq; cbn; lia.
  - eapply Hfin; eauto with cam.
  - eapply Hfin; eauto with cam.
  - unfold resume_wait. cbn [trace cam].
    rewrite requests_of_app, count_settles_app, length_app, Heq. cbn. lia.
Qed.

(** X4: along every schedule, started from a camera with no fetch in
    flight, the requests sent are as many as the fetches that have settled,
    plus one exactly while [_loading] is set; so no request is sent before
    the one before it has settled, and at any time at most one call is
    suspended in a fetch. *)
Theorem fetches_alternate_with_settles (acts : list action)
    (self : BuienradarCam) (s : sys) :
  _loading self = false ->
  run acts (idle self) = Some s ->
  length (requests_of (trace s))
  = (count_settles (trace s) + (if _loading (cam s) then 1 else 0))%nat
  /\ forall i j p q,
       tasks s !! i = Some p -> tasks s !! j = Some q ->
       fetching p = true -> fetching q = true -> i = j.
Proof.
  intros Hload Hrun.
  assert (H : forall s0,
             flag_inv s0 ->
             length (requests_of (trace s0))
             = (count_settles (trace s0)
                + (if _loading (cam s0) then 1 else 0))%nat ->
             run acts s0 = Some s ->
             flag_inv s
             /\ length (requests_of (trace s))
                = (count_settles (trace s)
                   + (if _loading (cam s) then 1 else 0))%nat).
  { clear Hrun.
    induction acts as [| a acts IH]; intros s0 Hflag Heq Hrun0;
      cbn in Hrun0.
    - by injection Hrun0 as <-.
    - destruct (step a s0) as [s1 |] eqn:Hstep; [| discriminate].
      eauto using step_flag_inv, step_alternation. }
  destruct (H (idle self)) as [Hflag Heq]; auto using idle_flag_inv.
  { cbn. by rewrite Hload. }
  split; [exact Heq |]. apply Hflag.
Qed.

Lemma fetches_alternate_with_settles_witness :
  let self := __init__ 700 600 "NL" 60 in
  let acts := [Run 0 (Datetime 0) (Datetime 0);
               GetDone 0 (GetRaise TimeoutError);
               Run 1 (Datetime 5) (Datetime 5);
               Run 2 (Datetime 6) (Datetime 6)] in
  exists s,
    run acts (idle self) = Some s
    /\ length (requests_of (trace s)) = 2%nat
    /\ count_settles (trace s) = 1%nat
    /\ _loading (cam s) = true.
Proof.
  intros self acts.
  destruct (run acts (idle self)) as [s |] eqn:Hrun; [| discriminate Hrun].
  exists s. split; [reflexivity |].
  destruct (fetches_alternate_with_settles acts self s eq_refl Hrun)
    as [Heq _].
  assert (Hs : count_settles (trace s) = 1%nat /\ _loading (cam s) = true).
  { vm_compute in Hrun. by injection Hrun as <-. }
  destruct Hs as [Hc Hl]. rewrite Hc, Hl in Heq. done.
Defined.

(** X5: the calls never block each other for good.  In every state the
    camera can get into, as long as some call has not ended, a step of a
    call that has already started is possible: a notified waiter can run,
    a fetch can take the answer of the network, and a call waits
    unnotified only while another call is in a fetch. *)
Theorem no_deadlock (s : sys) (i : nat) (p : pc) :
  reachable s ->
  tasks s !! i = Some p ->
  (forall r, p <> Done r) ->
  exists a s', resumes a = true /\ step a s = Some s'.
Proof.
  intros Hreach Hi Hlive.
  assert (Hfetch : forall j q, tasks s !! j = Some q -> fetching q = true ->
                               exists a s', resumes a = true
                                            /\ step a s = Some s').
  { intros j [b | now | now | r] Hj Hq; try discriminate.
    - exists (GetDone j (GetRaise TimeoutError)). cbn. rewrite Hj. eauto.
    - exists (ReadDone j (ReadRaise TimeoutError)). cbn. rewrite Hj. eauto. }
  destruct p as [[] | now | now | r].
  - exists (Wake i). cbn. rewrite Hi. eauto.
  - destruct (reachable_flag_inv _ Hreach) as (_ & Hl & Hw).
    destruct (proj1 Hl (Hw _ Hi)) as (j & q & Hj & Hq). eauto.
  - eauto.
  - eauto.
  - by destruct (Hlive r).
Qed.

Lemma no_deadlock_witness :
  let acts := [Run 0 (Datetime 0) (Datetime 0);
               Run 1 (Datetime 1) (Datetime 1)] in
  exists s a s',
    run acts (idle (__init__ 700 600 "NL" 60)) = Some s
    /\ tasks s !! 1%nat = Some (CondWait false)
    /\ resumes a = true /\ step a s = Some s'.
Proof.
  intros acts.
  destruct (run acts (idle (__init__ 700 600 "NL" 60))) as [s |] eqn:Hrun;
    [| discriminate Hrun].
  assert (Hreach : reachable s).
  { exists 700, 600, "NL"%string, 60, acts. exact Hrun. }
  assert (Hi : tasks s !! 1%nat = Some (CondWait false)).
  { vm_compute in Hrun. by injection Hrun as <-. }
  destruct (no_deadlock s 1%nat (CondWait false) Hreach Hi)
    as (a & s' & Ha & Hstep); [discriminate |].
  exists s, a, s'. done.
Defined.

(** ** What concurrent callers get *)

Lemma step_returned_current (a : action) (s s' : sys) :
  flag_inv s -> single_flight_inv s -> returned_current s ->
  step a s = Some s' ->
  calls_due_before_settle [a] s = true ->
  returned_current s'.
Proof.
  intros Hflag Hsf Hcur Hstep Hdue. apply step_transition in Hstep.
  assert (Hfin : forall i now r p,
             tasks s !! i = Some p -> fetching p = true ->
             returned_current (after_retrieve i now r s)).
  { intros i now [c out] p Hi Hp.
    pose proof (presettle_of_fetcher _ _ _ Hsf Hi Hp) as Hpre.
    destruct Hsf as (_ & Hbefore & _).
    destruct (Hbefore Hpre) as (Hts & _).
    assert (Hnone : forall j image,
               tasks s !! j <> Some (Done (Returned image))).
    { intros j image Hj. destruct (Hts _ _ Hj) as [? | ?]; discriminate. }
    destruct out as [[] | e |];
      unfold returned_current, after_retrieve, conclude, finally_block;
      [destruct (add_seconds now (_delta c)) | | |];
      intros j image;
      cbn [tasks cam set_loading set_deadline _last_image];
      rewrite lookup_insert; case_decide;
      first [ by intros [= <-]
            | discriminate
            | rewrite lookup_notify_all;
              destruct (tasks s !! j) as [[] |] eqn:Hj; cbn; intros [=];
              subst; by destruct (Hnone j image)
            | intros Hj; by destruct (Hnone j image) ]. }
  destruct Hstep as [i t_check t_now s Hi | i o now s Hi | i o now s Hi
                    | i s Hi].
  - cbn in Hdue. apply andb_prop in Hdue as [Hdue _].
    apply andb_prop in Hdue as [Hdue _].
    unfold start. rewrite Hdue. cbn [negb].
    unfold returned_current.
    destruct (_loading (cam s)); intros j image;
      cbn [tasks cam set_loading _last_image];
      rewrite lookup_insert; case_decide; try discriminate; apply Hcur.
  - by eapply Hfin.
  - by eapply Hfin.
  - unfold resume_wait, returned_current. intros j image. cbn [tasks cam].
    rewrite lookup_insert. case_decide; [by intros [= <-] | apply Hcur].
Qed.

(** X6: when every call starts while a refresh is due and before the fetch
    has settled, all the calls that return, the one that fetched and the
    ones that waited, return the same value: the image cached at the
    end. *)
Theorem concurrent_calls_same_image (self : BuienradarCam)
    (acts : list action) (s : sys) :
  _loading self = false ->
  run acts (idle self) = Some s ->
  calls_due_before_settle acts (idle self) = true ->
  forall i image,
    tasks s !! i = Some (Done (Returned image)) ->
    image = _last_image (cam s).
Proof.
  intros Hload Hrun Hdue.
  assert (H : forall s0,
             flag_inv s0 -> single_flight_inv s0 -> returned_current s0 ->
             run acts s0 = Some s ->
             calls_due_before_settle acts s0 = true ->
             returned_current s).
  { clear Hrun Hdue.
    induction acts as [| a acts IH]; intros s0 Hflag Hsf Hcur Hrun Hdue.
    - cbn in Hrun. by injection Hrun as <-.
    - cbn [run] in Hrun. cbn [calls_due_before_settle] in Hdue.
      destruct (step a s0) as [s1 |] eqn:Hstep; [| discriminate].
      apply andb_prop in Hdue as [Ha Hrest].
      assert (Hone : calls_due_before_settle [a] s0 = true).
      { cbn [calls_due_before_settle]. rewrite Ha, Hstep. done. }
      apply (IH s1); eauto using step_flag_inv, step_single_flight,
                       step_returned_current. }
  apply (H (idle self)); auto using idle_flag_inv, idle_single_flight.
  intros i image Hi. cbn [idle tasks] in Hi. by rewrite lookup_empty in Hi.
Qed.

Lemma concurrent_calls_same_image_witness :
  let self := __init__ 700 600 "NL" 60 in
  let acts :=
    [Run 0 (Datetime 0) (Datetime 0);
     Run 1 (Datetime 1) (Datetime 1);
     GetDone 0 (GetResponse (mkResponse 200 None));
     ReadDone 0 (ReadOk [Byte.x47; Byte.x49; Byte.x46]);
     Wake 1] in
  exists s,
    run acts (idle self) = Some s
    /\ tasks s !! 0%nat = tasks s !! 1%nat
    /\ tasks s !! 1%nat = Some (Done (Returned (_last_image (cam s)))).
Proof.
  intros self acts.
  destruct (run acts (idle self)) as [s |] eqn:Hrun; [| discriminate Hrun].
  exists s. split; [reflexivity |].
  pose proof (concurrent_calls_same_image self acts s eq_refl Hrun eq_refl)
    as Hsame.
  assert (H0 : tasks s !! 0%nat
               = Some (Done (Returned (Some [Byte.x47; Byte.x49; Byte.x46])))).
  { vm_compute in Hrun. by injection Hrun as <-. }
  assert (H1 : tasks s !! 1%nat
               = Some (Done (Returned (Some [Byte.x47; Byte.x49; Byte.x46])))).
  { vm_compute in Hrun. by injection Hrun as <-. }
  split; [by rewrite H0, H1 |].
  by rewrite H1, (Hsame _ _ H1).
Defined.

(** ** Writes to the cache *)

(** X7: each cache field has one writer.  A step changes [_last_image]
    only when [res.read()] delivers a body, and then to that body; it
    changes [_last_modified] only when a response with a status below 400
    other than 304 arrives, and then to its [Last-Modified] header; it
    changes [_deadline] only when the call that fetches returns, and then
    to the [now] that call took before its request plus [_delta]. *)
Theorem cache_fields_single_writer (a : action) (s s' : sys) :
  step a s = Some s' ->
  (_last_image (cam s') = _last_image (cam s)
   \/ exists i body, a = ReadDone i (ReadOk body)
                     /\ _last_image (cam s') = Some body)
  /\ (_last_modified (cam s') = _last_modified (cam s)
      \/ exists i res, a = GetDone i (GetResponse res)
                       /\ status res < 400 /\ status res <> 304
                       /\ _last_modified (cam s') = last_modified_header res)
  /\ (_deadline (cam s') = _deadline (cam s)
      \/ exists i now r deadline,
           (tasks s !! i = Some (AwaitGet now)
            \/ tasks s !! i = Some (AwaitRead now))
           /\ tasks s' !! i = Some (Done (Returned r))
           /\ add_seconds now (_delta (cam s)) = Some deadline
           /\ timestamp deadline = timestamp now + _delta (cam s)
           /\ _deadline (cam s') = Some deadline).
Proof.
  intros Hstep. apply step_transition in Hstep.
  destruct Hstep as [i t_check t_now s Hi | i o now s Hi | i o now s Hi
                    | i s Hi].
  - unfold start. repeat case_match; cbn; auto.
  - unfold on_response, raised_in_try.
    destruct o as [e | res]; [destruct (caught e); cbn; auto |].
    destruct (Z.leb_spec 400 (status res)); [cbn; auto |].
    destruct (Z.eqb_spec (status res) 304).
    + cbn [after_retrieve]. unfold conclude.
      destruct (add_seconds now (_delta (cam s))) as [d |] eqn:Hadd;
        cbn; [| auto].
      split; [auto |]. split; [auto |]. right. exists i, now.
      eexists. exists d. split; [eauto |].
      split; [apply lookup_insert_eq |]. split; [done |].
      split; [by apply (add_seconds_Some _ _ _ Hadd) | done].
    + destruct (truthy (last_modified_header res)) eqn:Ht; cbn; [| auto].
      split; [auto |]. split; [| auto]. right. exists i, res. auto.
  - destruct o as [body | e]; unfold on_body, raised_in_try;
      [| destruct (caught e); cbn; auto].
    cbn [after_retrieve]. unfold conclude. cbn [_delta set_last_image].
    destruct (add_seconds now (_delta (cam s))) as [d |] eqn:Hadd; cbn.
    + split; [right; eauto |]. split; [auto |]. right. exists i, now.
      eexists. exists d. split; [eauto |].
      split; [apply lookup_insert_eq |]. split; [done |].
      split; [by apply (add_seconds_Some _ _ _ Hadd) | done].
    + split; [right; eauto |]. auto.
  - cbn. auto.
Qed.

Lemma cache_fields_single_writer_witness :
  let s := mkSys (set_loading true (__init__ 700 600 "NL" 60))
                 {[ 0%nat := AwaitRead (Datetime 7) ]} [] in
  exists s',
    step (ReadDone 0 (ReadOk [Byte.x47])) s = Some s'
    /\ _last_image (cam s') = Some [Byte.x47]
    /\ _deadline (cam s') = Some (Datetime 607).
Proof.
  intros s. eexists. split; [reflexivity |].
  destruct (cache_fields_single_writer (ReadDone 0 (ReadOk [Byte.x47])) s _
              eq_refl) as ([Himg | (i & body & Ha & Himg)] & _ & _);
    [discriminate Himg |].
  split; reflexivity.
Defined.

Lemma step_keeps_cache (a : action) (s s' : sys) :
  step a s = Some s' ->
  (is_Some (_last_image (cam s)) -> is_Some (_last_image (cam s')))
  /\ (truthy (_last_modified (cam s)) = true ->
      truthy (_last_modified (cam s')) = true)
  /\ (is_Some (_deadline (cam s)) -> is_Some (_deadline (cam s'))).
Proof.
  intros Hstep. apply step_transition in Hstep.
  destruct Hstep as [i t_check t_now s Hi | i o now s Hi | i o now s Hi
                    | i s Hi].
  - unfold start. by repeat case_match.
  - unfold on_response, raised_in_try, after_retrieve, conclude.
    repeat case_match; simplify_eq; cbn; eauto.
  - unfold on_body, raised_in_try, after_retrieve, conclude.
    repeat case_match; simplify_eq; cbn; eauto.
  - done.
Qed.

(** X8: nothing is ever taken out of the cache.  Along any schedule, from
    any state, an image once cached stays cached (possibly replaced), a
    token once recorded stays recorded and non-empty, and a deadline once
    set stays set. *)
Theorem cache_never_cleared (acts : list action) (s s' : sys) :
  run acts s = Some s' ->
  (is_Some (_last_image (cam s)) -> is_Some (_last_image (cam s')))
  /\ (truthy (_last_modified (cam s)) = true ->
      truthy (_last_modified (cam s')) = true)
  /\ (is_Some (_deadline (cam s)) -> is_Some (_deadline (cam s'))).
Proof.
  revert s. induction acts as [| a acts IH]; intros s Hrun; cbn in Hrun.
  - by injection Hrun as <-.
  - destruct (step a s) as [s1 |] eqn:Hstep; [| discriminate].
    destruct (step_keeps_cache _ _ _ Hstep) as (H1 & H2 & H3).
    destruct (IH _ Hrun) as (H1' & H2' & H3'). auto.
Qed.

Lemma cache_never_cleared_witness :
  let s := idle (mkCam 700 600 "NL" 60 (Some [Byte.x47]) (Some "X") false
                       (Some (Datetime 0))) in
  let acts := [Run 0 (Datetime 700) (Datetime 700);
               GetDone 0 (GetResponse (mkResponse 500 None))] in
  exists s',
    run acts s = Some s'
    /\ is_Some (_last_image (cam s'))
    /\ truthy (_last_modified (cam s')) = true
    /\ is_Some (_deadline (cam s')).
Proof.
  intros s acts.
  destruct (run acts s) as [s' |] eqn:Hrun; [| discriminate Hrun].
  exists s'. split; [reflexivity |].
  destruct (cache_never_cleared acts s s' Hrun) as (H1 & H2 & H3).
  split; [apply H1; by eexists |]. split; [by apply H2 |].
  apply H3. by eexists.
Defined.

(** ** The outcome of a fetch *)

Lemma needs_refresh_mono (self : BuienradarCam) (t t' : datetime) :
  timestamp t <= timestamp t' ->
  __needs_refresh self t = true -> __needs_refresh self t' = true.
Proof.
  intros Hle. rewrite !needs_refresh_true_iff.
  intros [? | [? | [? | [? | (d & Hd & Hlt)]]]]; auto.
  do 4 right. exists d. split; [done | lia].
Qed.

Lemma needs_refresh_ext (self self' : BuienradarCam) (t : datetime) :
  _delta self' = _delta self ->
  _deadline self' = _deadline self ->
  _last_image self' = _last_image self ->
  __needs_refresh self' t = __needs_refresh self t.
Proof. unfold __needs_refresh. by intros -> -> ->. Qed.

(** A fetch that does not count as an update leaves the image alone. *)
Lemma call_alone_failed_image (i : nat) (t_check t_now : datetime)
    (net : get_outcome * read_outcome) (s s' : sys) :
  tasks s !! i = None ->
  __needs_refresh (cam s) t_check = true ->
  _loading (cam s) = false ->
  was_updated net (cam s) = false ->
  call_alone i t_check t_now net s = Some s' ->
  _last_image (cam s') = _last_image (cam s).
Proof.
  intros Hnew Hdue Hload. destruct net as [g r].
  unfold call_alone, step, start, was_updated, on_response.
  rewrite Hnew, Hdue, Hload. simpl. rewrite lookup_insert_eq.
  destruct g as [[] | res]; [| | | | destruct (400 <=? status res);
    [| destruct (status res =? 304);
       [| destruct r as [body | []];
          destruct (truthy (last_modified_header res))]]];
    repeat progress (simpl; rewrite ?lookup_insert_eq);
    intros Hupd Hcall; try discriminate Hupd;
    by injection Hcall as <-.
Qed.

(** X9: a fetch that fails, by an exception or by a status of 400 or more,
    moves neither the deadline nor the image and leaves the flag reset;
    the refresh stays due at every later clock reading, so the next call
    that starts sends a request again. *)
Theorem failed_fetch_is_retried (i : nat) (t_check t_now : datetime)
    (net : get_outcome * read_outcome) (s : sys) :
  tasks s !! i = None ->
  __needs_refresh (cam s) t_check = true ->
  _loading (cam s) = false ->
  was_updated net (cam s) = false ->
  exists s',
    call_alone i t_check t_now net s = Some s'
    /\ _last_image (cam s') = _last_image (cam s)
    /\ _deadline (cam s') = _deadline (cam s)
    /\ forall j t t', tasks s' !! j = None ->
         timestamp t_check <= timestamp t ->
         exists s'', step (Run j t t') s' = Some s''
                     /\ issued s' s'' = [request (cam s')]
                     /\ tasks s'' !! j = Some (AwaitGet t').
Proof.
  intros Hnew Hdue Hload Hupd.
  destruct (call_alone_due i t_check t_now net s Hnew Hdue Hload)
    as (s' & Hcall & _ & _ & Hload' & Hdelta & Hdl).
  rewrite Hupd in Hdl.
  pose proof (call_alone_failed_image _ _ _ _ _ _ Hnew Hdue Hload Hupd Hcall)
    as Himg.
  exists s'. repeat split; try done.
  intros j t t' Hj Hle.
  assert (Hdue' : __needs_refresh (cam s') t = true).
  { rewrite (needs_refresh_ext (cam s) (cam s')) by done.
    by eapply needs_refresh_mono. }
  cbn [step]. rewrite Hj. unfold start. rewrite Hdue', Hload'. cbn [negb].
  eexists. split; [reflexivity |]. split.
  - erewrite issued_app; [| reflexivity]. reflexivity.
  - apply lookup_insert_eq.
Qed.

Lemma failed_fetch_is_retried_witness :
  let s := idle (__init__ 700 600 "NL" 60) in
  let net := (GetResponse (mkResponse 503 None), ReadOk []) in
  exists s' s'',
    call_alone 0 (Datetime 0) (Datetime 0) net s = Some s'
    /\ _deadline (cam s') = None
    /\ step (Run 1 (Datetime 0) (Datetime 1)) s' = Some s''
    /\ issued s' s'' = [request (cam s')].
Proof.
  intros s net.
  destruct (failed_fetch_is_retried 0 (Datetime 0) (Datetime 0) net s
              eq_refl eq_refl eq_refl eq_refl)
    as (s' & Hcall & _ & Hdl & Hnext).
  assert (Hj : tasks s' !! 1%nat = None).
  { vm_compute in Hcall. by injection Hcall as <-. }
  destruct (Hnext 1%nat (Datetime 0) (Datetime 1) Hj ltac:(cbn; lia))
    as (s'' & Hstep & Hiss & _).
  exists s', s''. done.
Defined.

(** X10: a fetch answered with a status below 400 other than 304 whose
    body is read stores the body as the image, even when it is empty,
    records the [Last-Modified] header when the response has a non-empty
    one and keeps the old token otherwise, and leaves the flag reset.  When
    the clock reading taken before the request plus [_delta] is a
    datetime, the deadline is set to it and the call returns the new body;
    when it is not, line 201 raises: the deadline stays as it was and the
    call ends with [OverflowError]. *)
Theorem full_response_is_stored (i : nat) (t_check t_now : datetime)
    (res : Response) (body : bytes) (s : sys) :
  tasks s !! i = None ->
  __needs_refresh (cam s) t_check = true ->
  _loading (cam s) = false ->
  status res < 400 ->
  status res <> 304 ->
  exists s',
    call_alone i t_check t_now (GetResponse res, ReadOk body) s = Some s'
    /\ _last_image (cam s') = Some body
    /\ _last_modified (cam s')
       = (if truthy (last_modified_header res)
          then last_modified_header res
          else _last_modified (cam s))
    /\ _loading (cam s') = false
    /\ match add_seconds t_now (_delta (cam s)) with
       | Some deadline =>
           timestamp deadline = timestamp t_now + _delta (cam s)
           /\ _deadline (cam s') = Some deadline
           /\ tasks s' !! i = Some (Done (Returned (Some body)))
       | None =>
           _deadline (cam s') = _deadline (cam s)
           /\ tasks s' !! i = Some (Done (Raised OverflowError))
       end.
Proof.
  intros Hnew Hdue Hload Hlt Hne.
  unfold call_alone, step, start, on_response.
  rewrite Hnew, Hdue, Hload. simpl. rewrite lookup_insert_eq.
  destruct (Z.leb_spec 400 (status res)); [lia |].
  destruct (Z.eqb_spec (status res) 304); [done |].
  destruct (truthy (last_modified_header res));
    repeat progress (simpl; rewrite ?lookup_insert_eq);
    destruct (add_seconds t_now (_delta (cam s))) as [d |] eqn:Hadd;
    repeat progress (simpl; rewrite ?lookup_insert_eq);
    eexists; (split; [reflexivity |]); simpl;
    rewrite lookup_insert_eq;
    repeat (split; [done |]);
    try (split; [by apply (add_seconds_Some _ _ _ Hadd) |]); done.
Qed.

Lemma full_response_is_stored_witness :
  (let s := idle (mkCam 700 600 "NL" 60 (Some [Byte.x47]) (Some "X") false
                        (Some (Datetime 0))) in
   exists s',
     call_alone 0 (Datetime 601) (Datetime 602)
       (GetResponse (mkResponse 200 None), ReadOk [Byte.x49]) s = Some s'
     /\ _last_image (cam s') = Some [Byte.x49]
     /\ _deadline (cam s') = Some (Datetime 1202)
     /\ _last_modified (cam s') = Some "X")
  /\
  (let s := idle (__init__ 700 1000000000000 "NL" 60) in
   exists s',
     call_alone 0 (Datetime 0) (Datetime 0)
       (GetResponse (mkResponse 200 None), ReadOk [Byte.x49]) s = Some s'
     /\ _last_image (cam s') = Some [Byte.x49]
     /\ _deadline (cam s') = None
     /\ tasks s' !! 0%nat = Some (Done (Raised OverflowError))).
Proof.
  split; intros s.
  - destruct (full_response_is_stored 0 (Datetime 601) (Datetime 602)
                (mkResponse 200 None) [Byte.x49] s
                eq_refl eq_refl eq_refl ltac:(cbn; lia) ltac:(discriminate))
      as (s' & Hcall & Himg & Htok & _ & Hend).
    change (add_seconds (Datetime 602) (_delta (cam s)))
      with (Some (Datetime 1202)) in Hend.
    destruct Hend as (_ & Hdl & _). exists s'. done.
  - destruct (full_response_is_stored 0 (Datetime 0) (Datetime 0)
                (mkResponse 200 None) [Byte.x49] s
                eq_refl eq_refl eq_refl ltac:(cbn; lia) ltac:(discriminate))
      as (s' & Hcall & Himg & _ & _ & Hend).
    change (add_seconds (Datetime 0) (_delta (cam s)))
      with (@None datetime) in Hend.
    destruct Hend as (Hdl & Hres). exists s'. done.
Defined.

(** X11: only [asyncio.TimeoutError] and [aiohttp.ClientError] are
    absorbed.  When [session.get] raises, the camera is left exactly as it
    was; the call returns the cached image if the exception is one of the
    two, and otherwise ends with that very exception.  When [res.read()]
    raises, image and deadline are left as they were and the call ends the
    same way. *)
Theorem exception_absorbed_or_passed_on (i : nat) (t_check t_now : datetime)
    (e : exn) (s : sys) :
  tasks s !! i = None ->
  __needs_refresh (cam s) t_check = true ->
  _loading (cam s) = false ->
  let ending :=
    if caught e then Returned (_last_image (cam s)) else Raised e in
  (forall r, exists s',
      call_alone i t_check t_now (GetRaise e, r) s = Some s'
      /\ tasks s' !! i = Some (Done ending)
      /\ cam s' = cam s)
  /\ (forall res, status res < 400 -> status res <> 304 ->
      exists s',
        call_alone i t_check t_now (GetResponse res, ReadRaise e) s = Some s'
        /\ tasks s' !! i = Some (Done ending)
        /\ _last_image (cam s') = _last_image (cam s)
        /\ _deadline (cam s') = _deadline (cam s)
        /\ _loading (cam s') = false).
Proof.
  intros Hnew Hdue Hload ending. subst ending. split.
  - intros r. unfold call_alone, step, start, on_response, raised_in_try.
    rewrite Hnew, Hdue, Hload. simpl. rewrite lookup_insert_eq.
    destruct (caught e);
      repeat progress (simpl; rewrite ?lookup_insert_eq);
      eexists; (split; [reflexivity |]); simpl;
      rewrite lookup_insert_eq, set_loading_back; done.
  - intros res Hlt Hne.
    unfold call_alone, step, start, on_response, on_body, raised_in_try.
    rewrite Hnew, Hdue, Hload. simpl. rewrite lookup_insert_eq.
    destruct (Z.leb_spec 400 (status res)); [lia |].
    destruct (Z.eqb_spec (status res) 304); [done |].
    destruct (truthy (last_modified_header res)), (caught e);
      repeat progress (simpl; rewrite ?lookup_insert_eq);
      eexists; (split; [reflexivity |]); simpl;
      rewrite lookup_insert_eq; done.
Qed.

Lemma exception_absorbed_or_passed_on_witness :
  let s := idle (__init__ 700 600 "NL" 60) in
  exists s1 s2,
    call_alone 0 (Datetime 0) (Datetime 0)
      (GetRaise OtherException, ReadOk []) s = Some s1
    /\ tasks s1 !! 0%nat = Some (Done (Raised OtherException))
    /\ call_alone 0 (Datetime 0) (Datetime 0)
         (GetRaise ClientError, ReadOk []) s = Some s2
    /\ tasks s2 !! 0%nat = Some (Done (Returned None))
    /\ cam s2 = cam s.
Proof.
  intros s.
  destruct (exception_absorbed_or_passed_on 0 (Datetime 0) (Datetime 0)
              OtherException s eq_refl eq_refl eq_refl) as [H1 _].
  destruct (exception_absorbed_or_passed_on 0 (Datetime 0) (Datetime 0)
              ClientError s eq_refl eq_refl eq_refl) as [H2 _].
  destruct (H1 (ReadOk [])) as (s1 & Hc1 & Hr1 & _).
  destruct (H2 (ReadOk [])) as (s2 & Hc2 & Hr2 & Hcam).
  exists s1, s2. done.
Defined.

(** ** The number of periods *)

(** X12: the number of periods is [m // 10 + 1] or one more, is at least 2
    for every non-negative number of minutes, and never decreases when the
    requested minutes grow. *)
Theorem periods_bounds_and_order (m m' : Z) :
  (m / 10 + 1 <= radarTimeframePeriods m <= m / 10 + 2)
  /\ (0 <= m -> 2 <= radarTimeframePeriods m)
  /\ (m <= m' -> radarTimeframePeriods m <= radarTimeframePeriods m').
Proof.
  assert (Hb : forall n, n / 10 + 1 <= radarTimeframePeriods n <= n / 10 + 2).
  { intros n. destruct (periods_spec n) as [[_ ->] | [_ ->]]; lia. }
  split; [apply Hb |]. split.
  - intros Hm. pose proof (Z.div_pos m 10 Hm ltac:(lia)) as Hp.
    destruct (periods_spec m) as [[[k Hk] ->] | [_ ->]]; lia.
  - intros Hle.
    pose proof (Z.div_le_mono m m' 10 ltac:(lia) Hle) as Hdiv.
    destruct (Z.eq_dec (m / 10) (m' / 10)) as [Heq | Hne].
    + unfold radarTimeframePeriods. by rewrite Heq.
    + pose proof (Hb m'). destruct (periods_spec m) as [[_ ->] | [_ ->]]; lia.
Qed.

Lemma periods_bounds_and_order_witness :
  2 <= radarTimeframePeriods 0
  /\ radarTimeframePeriods 95 <= radarTimeframePeriods 100.
Proof.
  destruct (periods_bounds_and_order 0 0) as (_ & Hmin & _).
  destruct (periods_bounds_and_order 95 100) as (_ & _ & Hmono).
  split; [apply Hmin; lia | apply Hmono; lia].
Defined.

(** ** Setting up the platform *)

Lemma dict_get_resolved (o d : gmap string pyval) (key_o key_d : string)
    (dflt : pyval) :
  resolved o d key_o key_d dflt (dict_get o key_o (dict_get d key_d dflt)).
Proof.
  unfold resolved, dict_get.
  destruct (o !! key_o) as [v |]; [by left |].
  destruct (d !! key_d) as [v |]; cbn; auto.
Qed.

(** X13: [async_setup_entry] adds one camera.  Each of its settings is the
    value of the entry's options if the options have the key, else the
    value of the entry's data if the data have it, else the default; the
    forecast timeframe is read from the options under [CONF_TIMEFRAME] and
    from the data under [CONF_RADAR_TIMEFRAME].  The camera starts with an
    empty cache, so its first call, whatever the clock, sends a request
    without [If-Modified-Since]. *)
Theorem setup_adds_one_fresh_camera
    (CONF_COUNTRY CONF_DELTA CONF_TIMEFRAME CONF_RADAR_TIMEFRAME : string)
    (DEFAULT_COUNTRY DEFAULT_DELTA DEFAULT_RADAR_TIMEFRAME : pyval)
    (DEFAULT_DIMENSION : Z) (entry : ConfigEntry) (l : list BuienradarCam) :
  async_setup_entry CONF_COUNTRY CONF_DELTA CONF_TIMEFRAME
    CONF_RADAR_TIMEFRAME DEFAULT_COUNTRY DEFAULT_DELTA
    DEFAULT_RADAR_TIMEFRAME DEFAULT_DIMENSION entry = Some l ->
  exists self,
    l = [self]
    /\ resolved (options entry) (data entry) CONF_DELTA CONF_DELTA
                DEFAULT_DELTA (PyInt (_delta self))
    /\ resolved (options entry) (data entry) CONF_COUNTRY CONF_COUNTRY
                DEFAULT_COUNTRY (PyStr (_country self))
    /\ resolved (options entry) (data entry) CONF_TIMEFRAME
                CONF_RADAR_TIMEFRAME DEFAULT_RADAR_TIMEFRAME
                (PyInt (_radar_timeframe self))
    /\ _dimension self = DEFAULT_DIMENSION
    /\ forall i t t',
         exists s',
           step (Run i t t') (idle self) = Some s'
           /\ issued (idle self) s' = [mkRequest (url self) 5 ∅]
           /\ tasks s' !! i = Some (AwaitGet t').
Proof.
  unfold async_setup_entry, construct, setup_delta, setup_country,
    setup_radarTimeframe.
  intros Hsetup.
  pose proof (dict_get_resolved (options entry) (data entry)
                CONF_DELTA CONF_DELTA DEFAULT_DELTA) as Hd.
  pose proof (dict_get_resolved (options entry) (data entry)
                CONF_COUNTRY CONF_COUNTRY DEFAULT_COUNTRY) as Hc.
  pose proof (dict_get_resolved (options entry) (data entry)
                CONF_TIMEFRAME CONF_RADAR_TIMEFRAME
                DEFAULT_RADAR_TIMEFRAME) as Ht.
  destruct (dict_get (options entry) CONF_DELTA _) as [| d |];
    try discriminate Hsetup.
  destruct (dict_get (options entry) CONF_COUNTRY _) as [| | c];
    try discriminate Hsetup.
  destruct (dict_get (options entry) CONF_TIMEFRAME _) as [| tf |];
    try discriminate Hsetup.
  cbn in Hsetup. injection Hsetup as <-.
  eexists. split; [reflexivity |]. cbn [__init__ _delta _country
                                       _radar_timeframe _dimension].
  repeat (split; [done |]).
  intros i t t'.
  set (self := __init__ DEFAULT_DIMENSION d c tf).
  assert (Hdue : __needs_refresh self t = true).
  { apply needs_refresh_true_iff. right. by left. }
  assert (Hstart : start i t t' (idle self)
                   = mkSys (set_loading true self) (<[i := AwaitGet t']> ∅)
                           ([] ++ [EvAcquire i; EvRelease i;
                                   EvRequest i (request self)])).
  { unfold start. change (cam (idle self)) with self. by rewrite Hdue. }
  exists (start i t t' (idle self)). split; [| split].
  - unfold step. change (tasks (idle self)) with (∅ : gmap nat pc).
    by rewrite lookup_empty.
  - rewrite Hstart. erewrite issued_app; [| reflexivity]. reflexivity.
  - rewrite Hstart. apply lookup_insert_eq.
Qed.

Lemma setup_adds_one_fresh_camera_witness :
  let entry := mkEntry {[ "delta" := PyInt 600; "country_code" := PyStr "NL" ]}
                       {[ "delta" := PyInt 300 ]} in
  exists self,
    async_setup_entry "country_code" "delta" "timeframe" "radar_timeframe"
      (PyStr "NL") (PyInt 600) (PyInt 60) 700 entry = Some [self]
    /\ _delta self = 300
    /\ _radar_timeframe self = 60.
Proof.
  intros entry.
  destruct (setup_adds_one_fresh_camera
              "country_code" "delta" "timeframe" "radar_timeframe"
              (PyStr "NL") (PyInt 600) (PyInt 60) 700 entry _ eq_refl)
    as (self & Hl & _).
  exists self. injection Hl as <-. repeat split.
Defined.

(** ** Every call can end *)

(** Notified waiters run one after the other, each to its end. *)
Lemma wake_all (l : list nat) (s : sys) :
  NoDup l ->
  (forall i, i ∈ l -> tasks s !! i = Some (CondWait true)) ->
  exists s',
    run (Wake <$> l) s = Some s'
    /\ cam s' = cam s
    /\ (forall i, i ∈ l -> exists r, tasks s' !! i = Some (Done r))
    /\ (forall i, i ∉ l -> tasks s' !! i = tasks s !! i).
Proof.
  revert s. induction l as [| i l IH]; intros s Hnd Hall.
  - exists s. split; [done |]. split; [done |]. split; [| done].
    intros i Hi. by apply elem_of_nil in Hi.
  - apply NoDup_cons in Hnd as [Hi Hnd].
    cbn [fmap list_fmap run step]. rewrite (Hall i) by apply list_elem_of_here.
    destruct (IH (resume_wait i s) Hnd) as (s' & Hrun & Hcam & Hin & Hout).
    { intros j Hj. unfold resume_wait. cbn [tasks].
      rewrite lookup_insert_ne by (intros ->; done).
      apply Hall. by apply list_elem_of_further. }
    exists s'. split; [exact Hrun |]. split; [by rewrite Hcam |]. split.
    + intros j Hj. apply elem_of_cons in Hj as [-> | Hj]; [| by apply Hin].
      rewrite (Hout i Hi). unfold resume_wait. cbn [tasks].
      rewrite lookup_insert_eq. eauto.
    + intros j Hj. apply not_elem_of_cons in Hj as [Hne Hj].
      rewrite (Hout j Hj). unfold resume_wait. cbn [tasks].
      by rewrite lookup_insert_ne.
Qed.

(** A fetch in flight can be brought to its end by an answer of the
    network. *)
Lemma settle_fetch (s : sys) :
  flag_inv s ->
  exists acts s1,
    forallb resumes acts = true
    /\ run acts s = Some s1
    /\ flag_inv s1
    /\ _loading (cam s1) = false
    /\ (forall i, is_Some (tasks s !! i) -> is_Some (tasks s1 !! i)).
Proof.
  intros Hflag. destruct (_loading (cam s)) eqn:Hload.
  2: { exists [], s. done. }
  destruct Hflag as (Hu & Hl & Hw).
  destruct (proj1 Hl Hload) as (j & q & Hj & Hq).
  assert (Hdom : forall r c i,
             is_Some (tasks s !! i) ->
             is_Some (tasks (finally_block j r (mkSys c (tasks s) (trace s)))
                      !! i)).
  { intros r c i [p Hp]. unfold finally_block. cbn [tasks].
    rewrite lookup_insert. case_decide; [done |].
    rewrite lookup_notify_all, Hp. done. }
  destruct q as [b | now | now | r]; try discriminate Hq.
  - exists [GetDone j (GetRaise TimeoutError)]. eexists.
    split; [done |]. cbn [run step]. rewrite Hj.
    split; [reflexivity |]. split; [| split; [done |]].
    + eapply (step_flag_inv (GetDone j (GetRaise TimeoutError)) s); [done |].
      cbn [step]. by rewrite Hj.
    + apply Hdom.
  - exists [ReadDone j (ReadRaise TimeoutError)]. eexists.
    split; [done |]. cbn [run step]. rewrite Hj.
    split; [reflexivity |]. split; [| split; [done |]].
    + eapply (step_flag_inv (ReadDone j (ReadRaise TimeoutError)) s); [done |].
      cbn [step]. by rewrite Hj.
    + apply Hdom.
Qed.

(** X14: from every state the camera can get into, the calls that have
    started can all be brought to their end without starting another
    call: there is a schedule of steps of started calls after which every
    one of them has ended and the flag is reset. *)
Theorem all_calls_can_end (s : sys) :
  reachable s ->
  exists acts s',
    forallb resumes acts = true
    /\ run acts s = Some s'
    /\ _loading (cam s') = false
    /\ (forall i, is_Some (tasks s !! i) ->
                  exists r, tasks s' !! i = Some (Done r))
    /\ (forall i p, tasks s' !! i = Some p -> exists r, p = Done r).
Proof.
  intros Hreach. pose proof (reachable_flag_inv _ Hreach) as Hflag.
  destruct (settle_fetch s Hflag)
    as (acts1 & s1 & Hres1 & Hrun1 & Hflag1 & Hload1 & Hdom1).
  set (l := (map_to_list
               (filter (fun kv => is_notified kv.2 = true) (tasks s1))).*1).
  assert (Hl : forall i, i ∈ l <-> tasks s1 !! i = Some (CondWait true)).
  { intros i. unfold l. rewrite list_elem_of_fmap. split.
    - intros ([k p] & -> & Hkp). apply elem_of_map_to_list in Hkp.
      apply map_lookup_filter_Some in Hkp as [Hp Hn]. cbn in *.
      by destruct p as [[] | | |].
    - intros Hi. exists (i, CondWait true). split; [done |].
      apply elem_of_map_to_list, map_lookup_filter_Some. done. }
  destruct (wake_all l s1) as (s' & Hrun2 & Hcam & Hin & Hout).
  { apply NoDup_fst_map_to_list. }
  { intros i. apply Hl. }
  assert (Hdone : forall i p, tasks s' !! i = Some p -> exists r, p = Done r).
  { intros i p Hp. destruct (decide (i ∈ l)) as [Hi | Hi].
    - destruct (Hin i Hi) as [r Hr]. rewrite Hr in Hp. injection Hp as <-.
      eauto.
    - rewrite (Hout i Hi) in Hp.
      destruct Hflag1 as (_ & Hfl & Hw).
      destruct p as [[] | now | now | r]; [| | | | by eauto].
      + destruct Hi. by apply Hl.
      + rewrite (Hw _ Hp) in Hload1. discriminate.
      + assert (_loading (cam s1) = true) by (apply Hfl; eauto). congruence.
      + assert (_loading (cam s1) = true) by (apply Hfl; eauto).
        congruence. }
  exists (acts1 ++ (Wake <$> l)), s'. split; [| split; [| split; [| split]]].
  - rewrite forallb_app, Hres1. cbn. clear. by induction l.
  - by rewrite run_app, Hrun1.
  - by rewrite Hcam.
  - intros i Hi. destruct (Hdom1 i Hi) as [p1 Hp1].
    destruct (decide (i ∈ l)) as [Hil | Hil]; [by apply Hin |].
    pose proof (Hout i Hil) as Hsame. rewrite Hp1 in Hsame.
    destruct (Hdone _ _ Hsame) as [r ->]. eauto.
  - exact Hdone.
Qed.

Lemma all_calls_can_end_witness :
  let acts0 := [Run 0 (Datetime 0) (Datetime 0);
                Run 1 (Datetime 1) (Datetime 1);
                Run 2 (Datetime 2) (Datetime 2)] in
  exists s acts s',
    run acts0 (idle (__init__ 700 600 "NL" 60)) = Some s
    /\ forallb resumes acts = true
    /\ run acts s = Some s'
    /\ exists r, tasks s' !! 2%nat = Some (Done r).
Proof.
  intros acts0.
  destruct (run acts0 (idle (__init__ 700 600 "NL" 60))) as [s |] eqn:Hrun;
    [| discriminate Hrun].
  assert (Hreach : reachable s).
  { exists 700, 600, "NL"%string, 60, acts0. exact Hrun. }
  destruct (all_calls_can_end s Hreach)
    as (acts & s' & Hres & Hrun' & _ & Hall & _).
  exists s, acts, s'. repeat split; try done.
  apply Hall. vm_compute in Hrun. injection Hrun as <-. by eexists.
Defined.
